(** * rm_vision armor detector: letterboxing, proposal decoding, suppression
      and dispatch of [openvino_detector.cpp]

    The development follows the source file top to bottom:
    - [letterbox] and its locals ([scale], [pad_h], [half_h], [top], ...);
    - [generate_proposals], the per-row decoder;
    - [process_callback] and [push_input], with the effects of the pipeline
      (one inference call, at most one callback call) recorded in a trace.

    Numbers.  C++ [int] values are [Z].  [float] and [double] values are
    modelled by the rational they denote ([Q]): every finite float is a
    rational, and the comparisons of the source ([<], [std::min]) are the
    rational ones on finite values.  Arithmetic on them is the exact one.
    Where a statement depends on it, the distance to the machine result is
    accounted for: [round] does not change under a perturbation that stays
    between two half-integers ([round_away_from_half],
    [padding_split_perturbation]), and [Module IEEE] carries out the
    letterbox computation in binary32 and binary64, against which the
    rational model is checked on the sizes the detector works with.

    OpenCV's routines are not part of the sources.  [cv::resize] and the
    compiled model are parameters; [cv::copyMakeBorder], [cv::boundingRect],
    [cv::dnn::NMSBoxes] and [cv::dnn::blobFromImage] are modelled, the last
    three from the specification. *)

From Stdlib Require Import ZArith QArith Qround Qabs Qminmax SpecFloat.
From Stdlib Require Import List Bool Lia Lqa.
Import ListNotations.

Local Open Scope Z_scope.

(** ** Constants of the source *)

Definition INPUT_W : Z := 416.
Definition INPUT_H : Z := 416.
Definition NUM_CLASSES : nat := 8.
Definition NUM_COLORS : nat := 4.

(** ** Images *)

(** A pixel of a 3-channel 8-bit image, channels in storage order. *)
Record Vec3b : Type := mkVec3b { ch0 : Z; ch1 : Z; ch2 : Z }.

(** [cv::Mat] holding a 3-channel image: [rows], [cols] and the pixels, row
    by row. *)
Record Mat : Type := mkMat { rows : Z; cols : Z; data : list (list Vec3b) }.

(** [cv::Mat::empty()] for a 2-D image. *)
Definition empty (m : Mat) : bool := (rows m =? 0) || (cols m =? 0).

(** ** Numeric helpers *)

(** C's [round]: to the nearest integer, halfway cases away from zero. *)
Definition round (x : Q) : Z :=
  if Qle_bool 0 x then Qfloor (x + (1 # 2)) else Qceiling (x - (1 # 2)).

(** ** Points and the 3x3 transform *)

Record Point2f : Type := mkPoint2f { px : Q; py : Q }.

(** [Eigen::Matrix3f], entry [mIJ] at row [I], column [J]. *)
Record Matrix3f : Type := mkMatrix3f {
  m00 : Q; m01 : Q; m02 : Q;
  m10 : Q; m11 : Q; m12 : Q;
  m20 : Q; m21 : Q; m22 : Q }.

(** Rows 0 and 1 of [M * (x, y, 1)^T]: one column of
    [apex_dst = transform_matrix * apex_norm]. *)
Definition transform_point (M : Matrix3f) (p : Point2f) : Point2f :=
  {| px := m00 M * px p + m01 M * py p + m02 M * 1;
     py := m10 M * px p + m11 M * py p + m12 M * 1 |}%Q.

(** ** letterbox *)

Section Letterbox.

(** [cv::resize(src, dst, cv::Size(w, h))]: the interpolation is OpenCV's,
    it is a parameter here. *)
Variable resize : Mat -> Z -> Z -> Mat.

(** [new_shape] is the two-element vector [{width, height}];
    [new_shape[0]] is [fst], [new_shape[1]] is [snd]. *)
Variable img : Mat.
Variable new_shape : Z * Z.

Definition img_h : Z := rows img.
Definition img_w : Z := cols img.

Definition scale : Q :=
  Qmin (inject_Z (snd new_shape) * 1 / inject_Z img_h)
       (inject_Z (fst new_shape) * 1 / inject_Z img_w).

Definition resize_h : Z := round (inject_Z img_h * scale).
Definition resize_w : Z := round (inject_Z img_w * scale).

Definition pad_h : Z := snd new_shape - resize_h.
Definition pad_w : Z := fst new_shape - resize_w.

Definition half_h : Q := inject_Z pad_h * 1 / 2.
Definition half_w : Q := inject_Z pad_w * 1 / 2.

Definition top : Z := round (half_h - (1 # 10)).
Definition bottom : Z := round (half_h + (1 # 10)).
Definition left : Z := round (half_w - (1 # 10)).
Definition right : Z := round (half_w + (1 # 10)).

Definition transform_matrix : Matrix3f :=
  {| m00 := 1 / scale; m01 := 0;         m02 := - half_w / scale;
     m10 := 0;         m11 := 1 / scale; m12 := - half_h / scale;
     m20 := 0;         m21 := 0;         m22 := 1 |}%Q.

(** [cv::copyMakeBorder(src, dst, top, bottom, left, right,
    BORDER_CONSTANT, value)]: [t] rows above, [b] rows below, [l] pixels
    before and [r] pixels after every row, all of colour [value]. *)
Definition copyMakeBorder (src : Mat) (t b l r : Z) (value : Vec3b) : Mat :=
  let w := l + cols src + r in
  let line := repeat value (Z.to_nat w) in
  {| rows := t + rows src + b;
     cols := w;
     data := repeat line (Z.to_nat t)
             ++ map (fun row => repeat value (Z.to_nat l) ++ row
                                 ++ repeat value (Z.to_nat r)) (data src)
             ++ repeat line (Z.to_nat b) |}.

(** The function returns the padded image and writes the matrix through
    its reference parameter: both are returned here. *)
Definition letterbox : Mat * Matrix3f :=
  let resized_img := resize img resize_w resize_h in
  (copyMakeBorder resized_img top bottom left right (mkVec3b 114 114 114),
   transform_matrix).

(** The forward map of the letterboxing on coordinates: a source point is
    scaled by the uniform factor [scale] (the resize, whose target extents
    are the source extents times [scale], rounded) and shifted by the
    leading border ([left], [top]) that [copyMakeBorder] puts before it. *)
Definition forward_map (p : Point2f) : Point2f :=
  {| px := px p * scale + inject_Z left;
     py := py p * scale + inject_Z top |}%Q.

(** The four corners of the padded network image. *)
Definition network_corners : list Point2f :=
  let w := inject_Z (fst new_shape) in
  let h := inject_Z (snd new_shape) in
  [ mkPoint2f 0 0; mkPoint2f w 0; mkPoint2f 0 h; mkPoint2f w h ].

End Letterbox.

(** ** Detections *)

(** [cv::Rect]: integer top-left corner, width and height. *)
Record Rect : Type := mkRect { rect_x : Z; rect_y : Z; rect_width : Z; rect_height : Z }.

(** [ArmorObject].  [ArmorColor] and [ArmorNumber] are enumerations declared
    in the detector's header; the decoder produces them by
    [static_cast] from an index, and the index is what is kept here. *)
Definition ArmorColor : Type := nat.
Definition ArmorNumber : Type := nat.

Record ArmorObject : Type := mkArmorObject {
  pts : list Point2f;
  box : Rect;
  color : ArmorColor;
  number : ArmorNumber;
  prob : Q }.

(** ** std::vector with its size and capacity

    Lines 121-128 of the source build [obj.pts] with [reserve(4)] followed
    by four stores through [operator[]].  [StdVector] tracks what the
    standard distinguishes there: [reserve] changes the capacity and never
    the size, and [operator[]] is defined only below the size. *)

Module StdVector.

Record t (A : Type) : Type := mk { elems : list A; capacity : nat }.
Arguments mk {A} _ _.
Arguments elems {A} _.
Arguments capacity {A} _.

(** A default-constructed vector. *)
Definition empty {A : Type} : t A := mk [] 0.

Definition size {A : Type} (v : t A) : nat := length (elems v).

(** [v.reserve(n)]: the capacity becomes at least [n], the elements and
    the size stay as they are. *)
Definition reserve {A : Type} (n : nat) (v : t A) : t A :=
  mk (elems v) (Nat.max n (capacity v)).

(** [v.resize(n)] with value [x] for the new elements. *)
Definition resize {A : Type} (n : nat) (x : A) (v : t A) : t A :=
  mk (firstn n (elems v) ++ repeat x (n - size v)) (Nat.max n (capacity v)).

Fixpoint set_nth {A : Type} (i : nat) (x : A) (l : list A) : list A :=
  match l, i with
  | [], _ => []
  | _ :: l', O => x :: l'
  | y :: l', S i' => y :: set_nth i' x l'
  end.

(** [v[i] = x]: defined when [i < v.size()]; [None] stands for the
    undefined behaviour of an index at or past the size. *)
Definition store {A : Type} (i : nat) (x : A) (v : t A) : option (t A) :=
  if (i <? size v)%nat then Some (mk (set_nth i x (elems v)) (capacity v))
  else None.

End StdVector.

(** The stores of lines 123-128, with the bounds of each [operator[]]
    checked against the size the vector has at that point. *)
Definition store_pts_checked (p0 p1 p2 p3 : Point2f) : option (StdVector.t Point2f) :=
  let pts0 := StdVector.reserve 4 StdVector.empty in
  match StdVector.store 0 p0 pts0 with
  | None => None
  | Some pts1 =>
    match StdVector.store 1 p1 pts1 with
    | None => None
    | Some pts2 =>
      match StdVector.store 2 p2 pts2 with
      | None => None
      | Some pts3 => StdVector.store 3 p3 pts3
      end
    end
  end.

(** ** generate_proposals *)

(** [output_buffer.at<float>(i, j)] on row [i]. *)
Definition at_col (row : list Q) (j : nat) : Q := nth j row 0%Q.

(** [row.colRange(a, b)]. *)
Definition colRange (row : list Q) (a b : nat) : list Q :=
  firstn (b - a) (skipn a row).

Definition Qlt_bool (a b : Q) : bool := negb (Qle_bool b a).

(** Location of the maximum as [cv::minMaxLoc] reports it for a single row:
    the first index holding the largest value. *)
Fixpoint argmax_from (best_i : nat) (best : Q) (i : nat) (l : list Q) : nat :=
  match l with
  | [] => best_i
  | x :: l' =>
    if Qlt_bool best x then argmax_from i x (S i) l'
    else argmax_from best_i best (S i) l'
  end.

Definition argmax (l : list Q) : nat :=
  match l with
  | [] => 0%nat
  | x :: l' => argmax_from 0 x 1 l'
  end.

Fixpoint Qlist_min (x : Q) (l : list Q) : Q :=
  match l with
  | [] => x
  | y :: l' => Qlist_min (Qmin x y) l'
  end.

Fixpoint Qlist_max (x : Q) (l : list Q) : Q :=
  match l with
  | [] => x
  | y :: l' => Qlist_max (Qmax x y) l'
  end.

(** Modelled from the spec: [cv::boundingRect] is an OpenCV routine, not
    part of the sources; the decoder is to "derive the axis-aligned bounding
    box as the tightest box enclosing the four transformed points".  On
    integer pixels that is the box from the floor of the least coordinate to
    the floor of the greatest one, both included. *)
Definition boundingRect (ps : list Point2f) : Rect :=
  match ps with
  | [] => mkRect 0 0 0 0
  | p :: ps' =>
    let xmin := Qfloor (Qlist_min (px p) (map px ps')) in
    let ymin := Qfloor (Qlist_min (py p) (map py ps')) in
    let xmax := Qfloor (Qlist_max (px p) (map px ps')) in
    let ymax := Qfloor (Qlist_max (py p) (map py ps')) in
    mkRect xmin ymin (xmax - xmin + 1) (ymax - ymin + 1)
  end.

(** The three output vectors that [generate_proposals] appends to. *)
Record Proposals : Type := mkProposals {
  output_objs : list ArmorObject;
  scores : list Q;
  rects : list Rect }.

Definition no_proposals : Proposals := mkProposals [] [] [].

(** The object built from a row that passed the cutoff (lines 90-135).  The
    four stores into [obj.pts] are taken to reach the four slots they name;
    [store_pts_checked] above follows the size of the vector instead. *)
Definition decode_object (transform_matrix : Matrix3f) (row : list Q) : ArmorObject :=
  let confidence := at_col row 8 in
  let color_scores := colRange row 9 (9 + NUM_COLORS) in
  let num_scores := colRange row (9 + NUM_COLORS) (9 + NUM_COLORS + NUM_CLASSES) in
  let color_id := argmax color_scores in
  let num_id := argmax num_scores in
  let apex_norm :=
    [ mkPoint2f (at_col row 0) (at_col row 1);
      mkPoint2f (at_col row 2) (at_col row 3);
      mkPoint2f (at_col row 4) (at_col row 5);
      mkPoint2f (at_col row 6) (at_col row 7) ] in
  let apex_dst := map (transform_point transform_matrix) apex_norm in
  let rect := boundingRect apex_dst in
  {| pts := apex_dst; box := rect; color := color_id; number := num_id;
     prob := confidence |}.

(** One iteration of the loop over the rows. *)
Definition decode_row (conf_threshold : Q) (transform_matrix : Matrix3f)
    (acc : Proposals) (row : list Q) : Proposals :=
  let confidence := at_col row 8 in
  if Qlt_bool confidence conf_threshold then acc
  else
    let obj := decode_object transform_matrix row in
    {| output_objs := output_objs acc ++ [obj];
       scores := scores acc ++ [confidence];
       rects := rects acc ++ [box obj] |}.

Definition generate_proposals (acc : Proposals) (output_buffer : list (list Q))
    (transform_matrix : Matrix3f) (conf_threshold : Q) : Proposals :=
  fold_left (decode_row conf_threshold transform_matrix) output_buffer acc.

(** The rows that pass the cutoff of line 86. *)
Definition passes (conf_threshold : Q) (row : list Q) : bool :=
  negb (Qlt_bool (at_col row 8) conf_threshold).

(** ** The suppression filter *)

Definition rect_area (r : Rect) : Z := rect_width r * rect_height r.

Definition rect_intersection (a b : Rect) : Z :=
  let w := Z.min (rect_x a + rect_width a) (rect_x b + rect_width b)
           - Z.max (rect_x a) (rect_x b) in
  let h := Z.min (rect_y a + rect_height a) (rect_y b + rect_height b)
           - Z.max (rect_y a) (rect_y b) in
  if (0 <? w) && (0 <? h) then w * h else 0.

(** Intersection over union of two axis-aligned boxes. *)
Definition iou (a b : Rect) : Q :=
  let i := rect_intersection a b in
  (inject_Z i / inject_Z (rect_area a + rect_area b - i))%Q.

Section Filter.

Variable bboxes : list Rect.
Variable confidences : list Q.
Variable score_threshold : Q.
Variable nms_threshold : Q.

Definition score_of (i : nat) : Q := nth i confidences 0%Q.
Definition bbox_of (i : nat) : Rect := nth i bboxes (mkRect 0 0 0 0).

(** Insertion into a list of indices ordered by descending confidence;
    among equal confidences the earlier index stays first. *)
Fixpoint insert_desc (i : nat) (l : list nat) : list nat :=
  match l with
  | [] => [i]
  | j :: l' =>
    if Qlt_bool (score_of i) (score_of j) then j :: insert_desc i l'
    else i :: j :: l'
  end.

Definition sort_desc (l : list nat) : list nat := fold_right insert_desc [] l.

(** [j] is discarded next to an emitted [i] when their overlap exceeds the
    threshold. *)
Definition overlaps (i j : nat) : bool :=
  Qlt_bool nms_threshold (iou (bbox_of i) (bbox_of j)).

(** The greedy loop, with [budget] emissions left: take the first
    remaining candidate, emit it, discard the remaining ones that overlap
    it, and go on until nothing remains or the budget is used up. *)
Fixpoint suppress (budget : nat) (remaining : list nat) : list nat :=
  match budget with
  | O => []
  | S budget' =>
    match remaining with
    | [] => []
    | i :: rest =>
      i :: suppress budget' (filter (fun j => negb (overlaps i j)) rest)
    end
  end.

(** The candidates handed to the greedy loop: those not below the
    confidence threshold, by descending confidence. *)
Definition nms_candidates : list nat :=
  sort_desc (filter (fun i => negb (Qlt_bool (score_of i) score_threshold))
                    (seq 0 (length confidences))).

(** Modelled from the spec: [cv::dnn::NMSBoxes] is an OpenCV routine, not
    part of the sources.  The filter is "greedy non-maximum suppression --
    sort candidates by descending confidence; repeatedly take the
    highest-confidence remaining candidate, emit it, and discard every
    remaining candidate whose box overlap (intersection-over-union) with
    it exceeds the overlap threshold; stop once either no candidates
    remain or the emitted count reaches the maximum", and its result is
    the "indices into the original candidate list, in the order
    emitted". *)
Definition NMSBoxes (top_k : Z) : list nat :=
  suppress (Z.to_nat top_k) nms_candidates.

(** The candidates that survive suppression when no maximum is imposed:
    the budget of one emission per candidate is never used up. *)
Definition nms_survivors : list nat :=
  suppress (length nms_candidates) nms_candidates.

End Filter.

(** ** The input tensor *)

(** A dense [N x C x H x W] tensor of floats. *)
Definition Blob : Type := list (list (list (list Q))).

Definition plane (f : Vec3b -> Q) (m : Mat) : list (list Q) :=
  map (map f) (data m).

Section Dispatcher.

Variable resize : Mat -> Z -> Z -> Mat.

(** Modelled from the spec: [cv::dnn::blobFromImage] is an OpenCV routine,
    not part of the sources.  It converts the image "into the network's
    expected layout -- channel order swapped if needed, pixel values
    rescaled into the model's expected numeric range, and reshaped from an
    interleaved per-pixel layout into a per-channel planar layout with a
    leading batch dimension of 1".  With the arguments of the call: the
    image is resized when its size is not [size], [mean] is subtracted
    from and [scalefactor] multiplied into every channel value, and
    [swapRB] exchanges the first and the last channel. *)
Definition blobFromImage (image : Mat) (scalefactor : Q) (size : Z * Z)
    (mean : Q * Q * Q) (swapRB : bool) : Blob :=
  let image' :=
    if (cols image =? fst size) && (rows image =? snd size) then image
    else resize image (fst size) (snd size) in
  let '(mean0, mean1, mean2) := mean in
  let c0 := fun p => ((inject_Z (ch0 p) - mean0) * scalefactor)%Q in
  let c1 := fun p => ((inject_Z (ch1 p) - mean1) * scalefactor)%Q in
  let c2 := fun p => ((inject_Z (ch2 p) - mean2) * scalefactor)%Q in
  if swapRB
  then [ [ plane c2 image'; plane c1 image'; plane c0 image' ] ]
  else [ [ plane c0 image'; plane c1 image'; plane c2 image' ] ].

(** ** The detector and its effects *)

(** A compiled model runs one inference: the input tensor goes in, the
    output tensor comes out as its [rows x columns] matrix. *)
Definition CompiledModel : Type := Blob -> list (list Q).

(** A registered callback, named by a handle; calling it is an effect. *)
Definition DetectorCallback : Type := nat.

(** [compiled_model_] is a [unique_ptr] that [init] fills in
    and [infer_callback_] a [std::function] that may be empty. *)
Record OpenVINODetector : Type := mkDetector {
  conf_threshold_ : Q;
  top_k_ : Z;
  nms_threshold_ : Q;
  compiled_model_ : option CompiledModel;
  infer_callback_ : option DetectorCallback }.


(** What the pipeline does to the outside: it runs the model and it calls
    the callback. *)
Inductive event : Type :=
| Infer (input_tensor : Blob)
| Call (callback : DetectorCallback) (objs : list ArmorObject)
       (timestamp_nanosec : Z) (src_img : Mat).

(** A computation of the worker: the events it has produced and either
    its value or a fault (a null model, an index past the end). *)
Definition Eff (A : Type) : Type := list event * option A.

Definition ret {A : Type} (a : A) : Eff A := ([], Some a).
Definition fault {A : Type} : Eff A := ([], None).
Definition emit (e : event) : Eff unit := ([e], Some tt).
Definition bind {A B : Type} (m : Eff A) (k : A -> Eff B) : Eff B :=
  match m with
  | (tr, None) => (tr, None)
  | (tr, Some a) => let '(tr', b) := k a in (tr ++ tr', b)
  end.
Definition lift {A : Type} (o : option A) : Eff A :=
  match o with Some a => ret a | None => fault end.

Notation "x <- m ;; k" := (bind m (fun x => k))
  (at level 61, m at next level, right associativity).
Notation "m ;;; k" := (bind m (fun _ => k))
  (at level 61, right associativity).

(** Lines 244-246: [objs_result.push_back(std::move(objs_tmp[i]))] for
    [i] from [0] below [indices.size()]; reading [objs_tmp] past its end
    is a fault. *)
Fixpoint collect_loop (objs_tmp : list ArmorObject) (counter : list nat)
    (objs_result : list ArmorObject) : option (list ArmorObject) :=
  match counter with
  | [] => Some objs_result
  | i :: counter' =>
    match nth_error objs_tmp i with
    | None => None
    | Some obj => collect_loop objs_tmp counter' (objs_result ++ [obj])
    end
  end.

Definition collect_results (objs_tmp : list ArmorObject) (indices : list nat)
    : option (list ArmorObject) :=
  collect_loop objs_tmp (seq 0 (length indices)) [].

(** Lines 229-246: decoding, suppression and assembly of the result. *)
Definition postprocess (d : OpenVINODetector) (output_buffer : list (list Q))
    (transform_matrix : Matrix3f) : option (list ArmorObject) :=
  let parsed :=
    generate_proposals no_proposals output_buffer transform_matrix
                       (conf_threshold_ d) in
  let indices :=
    NMSBoxes (rects parsed) (scores parsed) (conf_threshold_ d)
             (nms_threshold_ d) (top_k_ d) in
  collect_results (output_objs parsed) indices.

Definition process_callback (d : OpenVINODetector) (resized_img : Mat)
    (transform_matrix : Matrix3f) (timestamp_nanosec : Z) (src_img : Mat)
    : Eff bool :=
  let blob :=
    blobFromImage resized_img 1 (INPUT_W, INPUT_H) (0, 0, 0)%Q true in
  model <- lift (compiled_model_ d) ;;
  emit (Infer blob) ;;;
  let output_buffer := model blob in
  objs_result <- lift (postprocess d output_buffer transform_matrix) ;;
  match infer_callback_ d with
  | Some callback =>
    emit (Call callback objs_result timestamp_nanosec src_img) ;;;
    ret true
  | None => ret false
  end.

(** The future returned by [push_input], observed when it is resolved:
    the events of the work behind it and the value it yields. *)
Definition push_input (d : OpenVINODetector) (rgb_img : Mat)
    (timestamp_nanosec : Z) : Eff bool :=
  if empty rgb_img then ret false
  else
    let '(resized_img, transform_matrix) :=
      letterbox resize rgb_img (INPUT_W, INPUT_H) in
    process_callback d resized_img transform_matrix timestamp_nanosec rgb_img.

(** Observations on a finished computation. *)
Definition trace {A : Type} (m : Eff A) : list event := fst m.
Definition resolved {A : Type} (m : Eff A) : option A := snd m.

Definition is_infer (e : event) : bool :=
  match e with Infer _ => true | Call _ _ _ _ => false end.
Definition is_call (e : event) : bool :=
  match e with Infer _ => false | Call _ _ _ _ => true end.

Definition model_calls {A : Type} (m : Eff A) : nat :=
  length (filter is_infer (trace m)).
Definition callback_calls {A : Type} (m : Eff A) : nat :=
  length (filter is_call (trace m)).

End Dispatcher.

(** The assembly that the spec describes, "projecting filter indices onto
    the candidate object list": the k-th result is the candidate at the
    filter's k-th index. *)
Definition project_indices (objs_tmp : list ArmorObject) (indices : list nat)
    : list (option ArmorObject) :=
  map (nth_error objs_tmp) indices.

(** ** Sample inputs *)

Definition identity_matrix : Matrix3f :=
  {| m00 := 1; m01 := 0; m02 := 0;
     m10 := 0; m11 := 1; m12 := 0;
     m20 := 0; m21 := 0; m22 := 1 |}%Q.

Definition one_hot (n k : nat) : list Q :=
  map (fun i => if (i =? k)%nat then 1%Q else 0%Q) (seq 0 n).

(** A raw row of [9 + NUM_COLORS + NUM_CLASSES] columns: the corners of the
    axis-aligned quadrilateral from [(x, y)] to [(x + w, y + h)], the
    confidence, and class scores that single out [color_id] and [num_id]. *)
Definition raw_row (x y w h : Z) (confidence : Q) (color_id num_id : nat)
    : list Q :=
  [ inject_Z x; inject_Z y; inject_Z x; inject_Z (y + h);
    inject_Z (x + w); inject_Z (y + h); inject_Z (x + w); inject_Z y;
    confidence ] ++ one_hot NUM_COLORS color_id ++ one_hot NUM_CLASSES num_id.

Definition sample_model (output_buffer : list (list Q)) : CompiledModel :=
  fun _ => output_buffer.

Definition sample_detector (conf_threshold : Q) (top_k : Z) (nms_threshold : Q)
    (output_buffer : list (list Q)) (callback : option DetectorCallback)
    : OpenVINODetector :=
  {| conf_threshold_ := conf_threshold; top_k_ := top_k;
     nms_threshold_ := nms_threshold;
     compiled_model_ := Some (sample_model output_buffer);
     infer_callback_ := callback |}.

(** A stand-in for [cv::resize] on sample inputs: an image of the requested
    size, filled with the first pixel of the source. *)
Definition sample_resize (m : Mat) (w h : Z) : Mat :=
  let p := hd (mkVec3b 0 0 0) (hd [] (data m)) in
  {| rows := h; cols := w;
     data := repeat (repeat p (Z.to_nat w)) (Z.to_nat h) |}.

Definition uniform_image (w h : Z) (p : Vec3b) : Mat :=
  {| rows := h; cols := w;
     data := repeat (repeat p (Z.to_nat w)) (Z.to_nat h) |}.

(** Two rows over the same box, the second more confident. *)
Definition overlapping_rows : list (list Q) :=
  [ raw_row 100 100 40 20 (6 # 10) 1 3;
    raw_row 100 100 40 20 (9 # 10) 2 5 ].

(** Two rows over disjoint boxes, the second more confident. *)
Definition reordered_rows : list (list Q) :=
  [ raw_row 10 10 40 20 (6 # 10) 0 1;
    raw_row 100 100 40 20 (9 # 10) 1 2 ].

(** Two rows of low confidence. *)
Definition quiet_rows : list (list Q) :=
  [ raw_row 10 10 40 20 (1 # 10) 0 1;
    raw_row 100 100 40 20 (2 # 10) 1 2 ].

(** Three rows over pairwise disjoint boxes. *)
Definition disjoint_rows : list (list Q) :=
  [ raw_row 10 10 40 20 (5 # 10) 0 1;
    raw_row 100 100 40 20 (9 # 10) 1 2;
    raw_row 200 200 40 20 (8 # 10) 2 3 ].
(** ** The letterbox computation in IEEE arithmetic

    The same locals as in [Section Letterbox], with every operation carried
    out as the compiler types it: [double] operations in binary64, [float]
    operations in binary32, each rounded to nearest, ties to even, and the
    conversions between [int], [float] and [double] where the source has
    them.  It is used to check the rational model on the sizes that the
    detector works with. *)

Module IEEE.

Definition double_of_int (z : Z) : spec_float := binary_normalize 53 1024 z 0 false.
Definition float_of_int (z : Z) : spec_float := binary_normalize 24 128 z 0 false.

Definition float_of_double (x : spec_float) : spec_float :=
  match x with
  | S754_finite s m e => binary_round 24 128 s m e
  | _ => x
  end.

Definition double_of_float (x : spec_float) : spec_float :=
  match x with
  | S754_finite s m e => binary_round 53 1024 s m e
  | _ => x
  end.

(** [std::min(a, b)]: [b] when [b < a], else [a]. *)
Definition std_min (a b : spec_float) : spec_float :=
  if SFltb b a then b else a.

(** [static_cast<int>(round(x))]: the nearest integer, halves away from
    zero; the value is an integer, so the cast keeps it. *)
Definition round_int (x : spec_float) : Z :=
  match x with
  | S754_finite s m e =>
    let magnitude :=
      if 0 <=? e then Z.pos m * 2 ^ e
      else (Z.pos m + 2 ^ (- e - 1)) / 2 ^ (- e) in
    if s then - magnitude else magnitude
  | _ => 0
  end.

(** The rational that a finite float denotes. *)
Definition value (x : spec_float) : Q :=
  match x with
  | S754_finite s m e =>
    let magnitude :=
      if 0 <=? e then inject_Z (Z.pos m * 2 ^ e)
      else Z.pos m # Z.to_pos (2 ^ (- e)) in
    if s then Qopp magnitude else magnitude
  | _ => 0%Q
  end.

Definition one : spec_float := double_of_int 1.
Definition two : spec_float := double_of_int 2.

(** The [double] literal [0.1]: the binary64 number nearest to one tenth. *)
Definition tenth : spec_float := SFdiv 53 1024 (double_of_int 1) (double_of_int 10).

(** [float half = pad * 1.0 / 2]. *)
Definition half (pad : Z) : spec_float :=
  float_of_double (SFdiv 53 1024 (SFmul 53 1024 (double_of_int pad) one) two).

(** [round(half - 0.1)] and [round(half + 0.1)]. *)
Definition leading (pad : Z) : Z :=
  round_int (SFsub 53 1024 (double_of_float (half pad)) tenth).
Definition trailing (pad : Z) : Z :=
  round_int (SFadd 53 1024 (double_of_float (half pad)) tenth).

Section Letterbox.

Variable img : Mat.
Variable new_shape : Z * Z.

Definition scale : spec_float :=
  float_of_double
    (std_min
       (SFdiv 53 1024 (SFmul 53 1024 (double_of_int (snd new_shape)) one)
              (double_of_int (rows img)))
       (SFdiv 53 1024 (SFmul 53 1024 (double_of_int (fst new_shape)) one)
              (double_of_int (cols img)))).

Definition resize_h : Z := round_int (SFmul 24 128 (float_of_int (rows img)) scale).
Definition resize_w : Z := round_int (SFmul 24 128 (float_of_int (cols img)) scale).

Definition pad_h : Z := snd new_shape - resize_h.
Definition pad_w : Z := fst new_shape - resize_w.

Definition top : Z := leading pad_h.
Definition bottom : Z := trailing pad_h.
Definition left : Z := leading pad_w.
Definition right : Z := trailing pad_w.

(** The entries of [transform_matrix] that are not constants:
    [1.0 / scale], [-half_w / scale] and [-half_h / scale], as floats. *)
Definition inv_scale : spec_float :=
  float_of_double (SFdiv 53 1024 one (double_of_float scale)).
Definition shift_x : spec_float := SFdiv 24 128 (SFopp (half pad_w)) scale.
Definition shift_y : spec_float := SFdiv 24 128 (SFopp (half pad_h)) scale.

(** One coordinate of [transform_matrix * apex_norm] for a point on the
    network image: the diagonal entry times the coordinate, plus zero times
    the other coordinate, plus the shift times one, in float arithmetic. *)
Definition to_source (diag shift : spec_float) (u v : Z) : spec_float :=
  SFadd 24 128
    (SFadd 24 128 (SFmul 24 128 diag (float_of_int u))
                  (SFmul 24 128 (S754_zero false) (float_of_int v)))
    (SFmul 24 128 shift (float_of_int 1)).

(** The corner [(W, H)] of the network image, through the matrix and back
    through the forward map, minus itself, on each axis. *)
Definition corner_error : Q * Q :=
  let w := fst new_shape in
  let h := snd new_shape in
  ((value (to_source inv_scale shift_x w h) * value scale + inject_Z left
    - inject_Z w)%Q,
   (value (to_source inv_scale shift_y h w) * value scale + inject_Z top
    - inject_Z h)%Q).

(** The integers of the computation: resized size and the four borders. *)
Definition integers : list Z :=
  [resize_w; resize_h; top; bottom; left; right].

End Letterbox.

End IEEE.

(** The integers of the rational model, in the same order. *)
Definition letterbox_integers (img : Mat) (new_shape : Z * Z) : list Z :=
  [ resize_w img new_shape; resize_h img new_shape;
    top img new_shape; bottom img new_shape;
    left img new_shape; right img new_shape ].

(** The check that the borders of a padding computed in IEEE arithmetic
    are its floor half and its ceiling half. *)
Definition ieee_split_agrees (n : nat) : bool :=
  let pad := Z.of_nat n in
  (IEEE.leading pad =? pad / 2) && (IEEE.trailing pad =? pad - pad / 2).

(** Frame sizes of common cameras, as width and height. *)
Definition sample_frames : list Mat :=
  map (fun wh => uniform_image (fst wh) (snd wh) (mkVec3b 0 0 0))
      [ (1280, 1024); (640, 480); (1440, 1080); (1920, 1200); (416, 416);
        (720, 540); (1024, 1280); (100, 3) ].

(** ** Shapes of images *)

(** The pixel grid of an image agrees with its [rows] and [cols]. *)
Definition well_formed (m : Mat) : Prop :=
  0 <= rows m /\ 0 <= cols m /\
  length (data m) = Z.to_nat (rows m) /\
  Forall (fun line => length line = Z.to_nat (cols m)) (data m).

(** The pixel in row [y], column [x]. *)
Definition pixel_at (m : Mat) (y x : nat) : option Vec3b :=
  match nth_error (data m) y with
  | Some line => nth_error line x
  | None => None
  end.

(** [cv::resize] returns an image of the size it is asked for. *)
Definition resizes_to_size (resize : Mat -> Z -> Z -> Mat) : Prop :=
  forall m w h, 0 <= w -> 0 <= h ->
    rows (resize m w h) = h /\ cols (resize m w h) = w /\
    well_formed (resize m w h).

(** [p] is within half a network pixel of [q], both in source
    coordinates: the difference times [scale] is at most one half on each
    axis. *)
Definition within_half_pixel (img : Mat) (new_shape : Z * Z) (q p : Point2f)
    : Prop :=
  (Qabs ((px p - px q) * scale img new_shape) <= 1 # 2)%Q /\
  (Qabs ((py p - py q) * scale img new_shape) <= 1 # 2)%Q.

(** A tensor has the shape [n x c x h x w]. *)
Definition has_shape (t : Blob) (n c h w : nat) : Prop :=
  length t = n /\
  Forall (fun entry =>
            length entry = c /\
            Forall (fun channel =>
                      length channel = h /\
                      Forall (fun line => length line = w) channel)
                   entry)
         t.

(** ** The pipeline with its partial steps

    Some steps of the pipeline are not defined on every input, and the
    definitions above pass over that: [letterbox] takes [cv::resize] as a
    total function and the extents as exact rationals, and [decode_object]
    takes the four stores of lines 125-128 to reach their slots.  The
    definitions of this part follow the same code with these steps as the
    source has them:
    - [cv::resize] raises a [cv::Exception] when its source is empty or the
      requested size has an extent that is not positive, and
      [cv::copyMakeBorder] raises on a negative border;
    - the resized extents and the borders are the integers of the binary32
      and binary64 computation ([Module IEEE]);
    - the stores into [obj.pts] go through [store_pts_checked]: past the
      size of the vector the behaviour is undefined;
    - a null [compiled_model_] is dereferenced. *)

(** How a step ends: with a value, with an exception of OpenCV, or in
    undefined behaviour. *)
Inductive outcome (A : Type) : Type :=
| Done (a : A)
| Raised
| Undefined.
Arguments Done {A} a.
Arguments Raised {A}.
Arguments Undefined {A}.

Definition outcome_bind {A B : Type} (m : outcome A) (k : A -> outcome B)
    : outcome B :=
  match m with
  | Done a => k a
  | Raised => Raised
  | Undefined => Undefined
  end.

(** A run of the worker: the events produced up to its end, and how it
    ended. *)
Definition Run (A : Type) : Type := list event * outcome A.

Definition run_trace {A : Type} (r : Run A) : list event := fst r.
Definition run_outcome {A : Type} (r : Run A) : outcome A := snd r.
Definition run_model_calls {A : Type} (r : Run A) : nat :=
  length (filter is_infer (run_trace r)).
Definition run_callback_calls {A : Type} (r : Run A) : nat :=
  length (filter is_call (run_trace r)).

(** [cv::resize(src, dst, cv::Size(w, h))] with its assertions. *)
Definition cv_resize (resize : Mat -> Z -> Z -> Mat) (src : Mat) (w h : Z)
    : outcome Mat :=
  if empty src || (w <=? 0) || (h <=? 0) then Raised
  else Done (resize src w h).

(** [cv::copyMakeBorder] with its assertion on the borders. *)
Definition cv_copyMakeBorder (src : Mat) (t b l r : Z) (value : Vec3b)
    : outcome Mat :=
  if (t <? 0) || (b <? 0) || (l <? 0) || (r <? 0) then Raised
  else Done (copyMakeBorder src t b l r value).

(** [letterbox] with the integers of the machine computation and the two
    OpenCV calls as they are.  The matrix is the rational one. *)
Definition letterbox_checked (resize : Mat -> Z -> Z -> Mat) (img : Mat)
    (new_shape : Z * Z) : outcome (Mat * Matrix3f) :=
  outcome_bind
    (cv_resize resize img (IEEE.resize_w img new_shape)
               (IEEE.resize_h img new_shape))
    (fun resized_img =>
       outcome_bind
         (cv_copyMakeBorder resized_img
            (IEEE.top img new_shape) (IEEE.bottom img new_shape)
            (IEEE.left img new_shape) (IEEE.right img new_shape)
            (mkVec3b 114 114 114))
         (fun padded => Done (padded, transform_matrix img new_shape))).

(** Lines 99-119: the four points of a row, sent through the matrix. *)
Definition apex_dst (transform_matrix : Matrix3f) (row : list Q)
    : list Point2f :=
  map (transform_point transform_matrix)
      [ mkPoint2f (at_col row 0) (at_col row 1);
        mkPoint2f (at_col row 2) (at_col row 3);
        mkPoint2f (at_col row 4) (at_col row 5);
        mkPoint2f (at_col row 6) (at_col row 7) ].

(** One iteration of the loop of [generate_proposals], the stores into
    [obj.pts] checked against the size of the vector. *)
Definition decode_row_checked (conf_threshold : Q) (transform_matrix : Matrix3f)
    (acc : Proposals) (row : list Q) : outcome Proposals :=
  let confidence := at_col row 8 in
  if Qlt_bool confidence conf_threshold then Done acc
  else
    let color_id := argmax (colRange row 9 (9 + NUM_COLORS)) in
    let num_id :=
      argmax (colRange row (9 + NUM_COLORS) (9 + NUM_COLORS + NUM_CLASSES)) in
    let apex := apex_dst transform_matrix row in
    let origin := mkPoint2f 0 0 in
    match store_pts_checked (nth 0 apex origin) (nth 1 apex origin)
                            (nth 2 apex origin) (nth 3 apex origin) with
    | None => Undefined
    | Some stored =>
      let rect := boundingRect (StdVector.elems stored) in
      let obj :=
        {| pts := StdVector.elems stored; box := rect; color := color_id;
           number := num_id; prob := confidence |} in
      Done {| output_objs := output_objs acc ++ [obj];
              scores := scores acc ++ [confidence];
              rects := rects acc ++ [rect] |}
    end.

Fixpoint generate_proposals_checked (acc : Proposals)
    (output_buffer : list (list Q)) (transform_matrix : Matrix3f)
    (conf_threshold : Q) : outcome Proposals :=
  match output_buffer with
  | [] => Done acc
  | row :: rest =>
    outcome_bind (decode_row_checked conf_threshold transform_matrix acc row)
      (fun acc' =>
         generate_proposals_checked acc' rest transform_matrix conf_threshold)
  end.

(** Lines 229-246 with the checked decoder; reading [objs_tmp] past its
    end is undefined. *)
Definition postprocess_checked (d : OpenVINODetector)
    (output_buffer : list (list Q)) (transform_matrix : Matrix3f)
    : outcome (list ArmorObject) :=
  outcome_bind
    (generate_proposals_checked no_proposals output_buffer transform_matrix
                                (conf_threshold_ d))
    (fun parsed =>
       let indices :=
         NMSBoxes (rects parsed) (scores parsed) (conf_threshold_ d)
                  (nms_threshold_ d) (top_k_ d) in
       match collect_results (output_objs parsed) indices with
       | Some objs_result => Done objs_result
       | None => Undefined
       end).

Definition process_callback_checked (resize : Mat -> Z -> Z -> Mat)
    (d : OpenVINODetector) (resized_img : Mat) (transform_matrix : Matrix3f)
    (timestamp_nanosec : Z) (src_img : Mat) : Run bool :=
  let blob :=
    blobFromImage resize resized_img 1 (INPUT_W, INPUT_H) (0, 0, 0)%Q true in
  match compiled_model_ d with
  | None => ([], Undefined)
  | Some model =>
    match postprocess_checked d (model blob) transform_matrix with
    | Done objs_result =>
      match infer_callback_ d with
      | Some callback =>
        ([Infer blob; Call callback objs_result timestamp_nanosec src_img],
         Done true)
      | None => ([Infer blob], Done false)
      end
    | Raised => ([Infer blob], Raised)
    | Undefined => ([Infer blob], Undefined)
    end
  end.

(** [push_input], observed when the future is resolved; an exception of
    [letterbox] leaves [push_input] itself, before any work is started. *)
Definition push_input_checked (resize : Mat -> Z -> Z -> Mat)
    (d : OpenVINODetector) (rgb_img : Mat) (timestamp_nanosec : Z) : Run bool :=
  if empty rgb_img then ([], Done false)
  else
    match letterbox_checked resize rgb_img (INPUT_W, INPUT_H) with
    | Done (resized_img, transform_matrix) =>
      process_callback_checked resize d resized_img transform_matrix
                               timestamp_nanosec rgb_img
    | Raised => ([], Raised)
    | Undefined => ([], Undefined)
    end.

(** The image that [letterbox_checked] returns when neither OpenCV call
    raises. *)
Definition letterboxed (resize : Mat -> Z -> Z -> Mat) (img : Mat)
    (new_shape : Z * Z) : Mat :=
  copyMakeBorder
    (resize img (IEEE.resize_w img new_shape) (IEEE.resize_h img new_shape))
    (IEEE.top img new_shape) (IEEE.bottom img new_shape)
    (IEEE.left img new_shape) (IEEE.right img new_shape)
    (mkVec3b 114 114 114).


(** [p] is within one network pixel of [q], both in source coordinates:
    the difference times [scale] is at most one on each axis. *)
Definition within_one_pixel (img : Mat) (new_shape : Z * Z) (q p : Point2f)
    : Prop :=
  (Qabs ((px p - px q) * scale img new_shape) <= 1)%Q /\
  (Qabs ((py p - py q) * scale img new_shape) <= 1)%Q.

(** [q] lies on the source image. *)
Definition on_image (img : Mat) (q : Point2f) : Prop :=
  (0 <= px q)%Q /\ (px q <= inject_Z (cols img))%Q /\
  (0 <= py q)%Q /\ (py q <= inject_Z (rows img))%Q.

(** A frame so thin that its scaled height rounds to 0. *)
Definition thin_frame : Mat := uniform_image 1000 1 (mkVec3b 1 2 3).

(** * Properties *)

(** Linear integer arithmetic with division and remainder by constants. *)
Ltac div_lia := Z.to_euclidean_division_equations; lia.

(** ** Rounding lemmas *)

Lemma Qfloor_unique (x : Q) (k : Z) :
  (inject_Z k <= x)%Q -> (x < inject_Z k + 1)%Q -> Qfloor x = k.
Proof.
  intros Hlo Hhi.
  pose proof (Qfloor_le x) as Hfl.
  pose proof (Qlt_floor x) as Hfu.
  rewrite inject_Z_plus in Hfu.
  assert (Qfloor x < k + 1).
  { rewrite Zlt_Qlt, inject_Z_plus. change (inject_Z 1) with 1%Q. lra. }
  assert (k < Qfloor x + 1).
  { rewrite Zlt_Qlt, inject_Z_plus. change (inject_Z 1) with 1%Q in *. lra. }
  lia.
Qed.

(** [round] is constant strictly between two consecutive half-integers: a
    perturbation of its argument that stays there does not change it. *)
Lemma round_away_from_half (x : Q) (k : Z) :
  (inject_Z k - (1 # 2) < x)%Q -> (x < inject_Z k + (1 # 2))%Q -> round x = k.
Proof.
  intros Hlo Hhi. unfold round.
  destruct (Qle_bool 0 x).
  - apply Qfloor_unique; lra.
  - unfold Qceiling.
    assert (Qfloor (- (x - (1 # 2))) = - k) as ->; [|lia].
    apply Qfloor_unique; rewrite inject_Z_opp; lra.
Qed.

(** ** The split of the padding *)

(** Half of an integer padding, as the source computes it. *)
Lemma half_cases (p : Z) :
  exists k : Z,
    (p = 2 * k /\ (inject_Z p * 1 / 2 == inject_Z k)%Q) \/
    (p = 2 * k + 1 /\ (inject_Z p * 1 / 2 == inject_Z k + (1 # 2))%Q).
Proof.
  exists (p / 2).
  destruct (Z.eq_dec (p mod 2) 0) as [Heven | Hodd].
  - left. assert (p = 2 * (p / 2)) as Hp by div_lia.
    split; [exact Hp|].
    rewrite Hp at 1. rewrite inject_Z_mult. change (inject_Z 2) with 2%Q. field.
  - right.
    assert (p = 2 * (p / 2) + 1) as Hp by div_lia.
    split; [exact Hp|].
    rewrite Hp at 1. rewrite inject_Z_plus, inject_Z_mult.
    change (inject_Z 2) with 2%Q. change (inject_Z 1) with 1%Q. field.
Qed.

(** The two sides of a padding [p], for any offset strictly between 0 and
    one half: the leading side is the floor of [p / 2] and the trailing side
    its ceiling.  The outcome is that of the offset [1 # 10]; an offset that
    differs from one tenth by the error of a machine constant or of a
    machine subtraction gives the same two integers. *)
Lemma padding_split_perturbation (p : Z) (eps : Q) :
  (0 < eps)%Q -> (eps < 1 # 2)%Q ->
  round (inject_Z p * 1 / 2 - eps) = p / 2 /\
  round (inject_Z p * 1 / 2 + eps) = p - p / 2.
Proof.
  intros Hpos Hhalf.
  destruct (half_cases p) as [k [[Hp Hq] | [Hp Hq]]].
  - assert (p / 2 = k) as Hk by (clear Hq; div_lia).
    rewrite Hk. split.
    + apply round_away_from_half; rewrite Hq; lra.
    + replace (p - k) with k by lia.
      apply round_away_from_half; rewrite Hq; lra.
  - assert (p / 2 = k) as Hk by (clear Hq; div_lia).
    rewrite Hk. split.
    + apply round_away_from_half; rewrite Hq; lra.
    + replace (p - k) with (k + 1) by lia.
      apply round_away_from_half; rewrite Hq, inject_Z_plus;
        change (inject_Z 1) with 1%Q; lra.
Qed.

Lemma padding_split (p : Z) :
  round (inject_Z p * 1 / 2 - (1 # 10)) = p / 2 /\
  round (inject_Z p * 1 / 2 + (1 # 10)) = p - p / 2.
Proof. apply padding_split_perturbation; reflexivity. Qed.

Lemma floor_half_le_ceil_half (p : Z) : p / 2 <= p - p / 2.
Proof. div_lia. Qed.

(** C6.  For every source image and target size, on each axis the leading
    border ([top], [left]) is [round(half - 0.1)] and the trailing border
    ([bottom], [right]) is [round(half + 0.1)], the leading border is never
    the larger one, and the two add up to the integer total padding of the
    axis, the target extent minus the resized extent. *)
Theorem letterbox_padding_split (img : Mat) (new_shape : Z * Z) :
  (top img new_shape = round (half_h img new_shape - (1 # 10)) /\
   bottom img new_shape = round (half_h img new_shape + (1 # 10)) /\
   left img new_shape = round (half_w img new_shape - (1 # 10)) /\
   right img new_shape = round (half_w img new_shape + (1 # 10))) /\
  (top img new_shape <= bottom img new_shape /\
   left img new_shape <= right img new_shape) /\
  (top img new_shape + bottom img new_shape
     = snd new_shape - resize_h img new_shape /\
   left img new_shape + right img new_shape
     = fst new_shape - resize_w img new_shape).
Proof.
  split; [repeat split|].
  unfold top, bottom, left, right, half_h, half_w.
  destruct (padding_split (pad_h img new_shape)) as [-> ->].
  destruct (padding_split (pad_w img new_shape)) as [-> ->].
  pose proof (floor_half_le_ceil_half (pad_h img new_shape)).
  pose proof (floor_half_le_ceil_half (pad_w img new_shape)).
  unfold pad_h, pad_w in *.
  repeat split; lia.
Qed.

(** ** The inverse transform *)

Lemma scale_pos (img : Mat) (new_shape : Z * Z) :
  0 < rows img -> 0 < cols img -> 0 < fst new_shape -> 0 < snd new_shape ->
  (0 < scale img new_shape)%Q.
Proof.
  intros Hr Hc Hw Hh. unfold scale, img_h, img_w.
  assert (forall a b : Z, 0 < a -> 0 < b -> (0 < inject_Z a * 1 / inject_Z b)%Q)
    as Hquot.
  { intros a b Ha Hb. apply Qlt_shift_div_l.
    - change 0%Q with (inject_Z 0). now rewrite <- Zlt_Qlt.
    - rewrite Qmult_0_l, Qmult_1_r.
      change 0%Q with (inject_Z 0). now rewrite <- Zlt_Qlt. }
  apply Q.min_glb_lt; apply Hquot; assumption.
Qed.

(** The leading border is the half padding or half a pixel less. *)
Lemma leading_border_offset (p : Z) :
  (- (1 # 2) <= inject_Z (round (inject_Z p * 1 / 2 - (1 # 10)))
                - inject_Z p * 1 / 2)%Q /\
  (inject_Z (round (inject_Z p * 1 / 2 - (1 # 10)))
     - inject_Z p * 1 / 2 <= 0)%Q.
Proof.
  destruct (padding_split p) as [-> _].
  destruct (half_cases p) as [k [[Hp Hq] | [Hp Hq]]];
    (assert (p / 2 = k) as -> by (clear Hq; div_lia));
    rewrite Hq; split; lra.
Qed.

(** Through the matrix and back through the forward map, a point of the
    network image moves by the difference between the leading border and
    the half padding, on each axis. *)
Lemma roundtrip_offset (img : Mat) (new_shape : Z * Z) (c : Point2f) :
  (0 < scale img new_shape)%Q ->
  let back :=
    forward_map img new_shape
      (transform_point (transform_matrix img new_shape) c) in
  (px back - px c == inject_Z (left img new_shape) - half_w img new_shape)%Q /\
  (py back - py c == inject_Z (top img new_shape) - half_h img new_shape)%Q.
Proof.
  intros Hs. cbn. split; field; lra.
Qed.

(** Every point of the plane comes back within half a pixel: the matrix
    undoes the scaling exactly and removes the half padding, where the
    border that was added is the half padding rounded down. *)
Lemma letterbox_roundtrip_half_pixel (img : Mat) (new_shape : Z * Z)
    (c : Point2f) :
  0 < rows img -> 0 < cols img -> 0 < fst new_shape -> 0 < snd new_shape ->
  let back :=
    forward_map img new_shape
      (transform_point (transform_matrix img new_shape) c) in
  (Qabs (px back - px c) <= 1 # 2)%Q /\ (Qabs (py back - py c) <= 1 # 2)%Q.
Proof.
  intros Hr Hc Hw Hh back.
  destruct (roundtrip_offset img new_shape c
              (scale_pos img new_shape Hr Hc Hw Hh)) as [Hx Hy].
  fold back in Hx, Hy.
  destruct (leading_border_offset (pad_w img new_shape)) as [Hx1 Hx2].
  destruct (leading_border_offset (pad_h img new_shape)) as [Hy1 Hy2].
  fold (half_w img new_shape) in Hx1, Hx2.
  fold (half_h img new_shape) in Hy1, Hy2.
  fold (left img new_shape) in Hx1, Hx2.
  fold (top img new_shape) in Hy1, Hy2.
  split; apply Qabs_Qle_condition; [rewrite Hx | rewrite Hy]; split; lra.
Qed.

(** C4.  For every non-empty source image and every target size, each of
    the four corners of the padded network image, sent through the matrix
    that [letterbox] produces and then through the forward scale-and-pad
    map, comes back within one pixel of itself on each axis. *)
Theorem letterbox_corner_roundtrip (resize : Mat -> Z -> Z -> Mat)
    (img : Mat) (new_shape : Z * Z) (c : Point2f) :
  0 < rows img -> 0 < cols img -> 0 < fst new_shape -> 0 < snd new_shape ->
  In c (network_corners new_shape) ->
  let M := snd (letterbox resize img new_shape) in
  let back := forward_map img new_shape (transform_point M c) in
  (Qabs (px back - px c) <= 1)%Q /\ (Qabs (py back - py c) <= 1)%Q.
Proof.
  intros Hr Hc Hw Hh _ M back.
  destruct (letterbox_roundtrip_half_pixel img new_shape c Hr Hc Hw Hh)
    as [Hx Hy].
  subst M back. cbn [letterbox snd].
  split; (eapply Qle_trans; [eassumption | discriminate]).
Qed.

(** ** The decoder *)

Lemma Qlt_bool_iff (a b : Q) : Qlt_bool a b = true <-> (a < b)%Q.
Proof.
  unfold Qlt_bool. rewrite negb_true_iff.
  split.
  - intros H. apply Qnot_le_lt. intros Hle.
    apply Qle_bool_iff in Hle. congruence.
  - intros H. destruct (Qle_bool b a) eqn:E; [|reflexivity].
    apply Qle_bool_iff in E. exfalso. exact (Qlt_not_le _ _ H E).
Qed.

Lemma Qlt_bool_false_iff (a b : Q) : Qlt_bool a b = false <-> (b <= a)%Q.
Proof.
  unfold Qlt_bool. rewrite negb_false_iff. apply Qle_bool_iff.
Qed.

(** The decoder appends, in row order, one object, one score and one box
    for every row that passes the cutoff, and nothing else. *)
Lemma generate_proposals_filter (acc : Proposals) (output_buffer : list (list Q))
    (M : Matrix3f) (conf_threshold : Q) :
  let kept := filter (passes conf_threshold) output_buffer in
  generate_proposals acc output_buffer M conf_threshold =
  {| output_objs := output_objs acc ++ map (decode_object M) kept;
     scores := scores acc ++ map (fun row => at_col row 8) kept;
     rects := rects acc ++ map (fun row => box (decode_object M row)) kept |}.
Proof.
  unfold generate_proposals. revert acc.
  induction output_buffer as [|row buf IH]; intros acc; cbn.
  - rewrite !app_nil_r. now destruct acc.
  - rewrite IH. unfold decode_row, passes.
    destruct (Qlt_bool (at_col row 8) conf_threshold); cbn.
    + reflexivity.
    + rewrite <- !app_assoc. reflexivity.
Qed.

Lemma generate_proposals_lengths (output_buffer : list (list Q)) (M : Matrix3f)
    (conf_threshold : Q) :
  let parsed := generate_proposals no_proposals output_buffer M conf_threshold in
  length (scores parsed) = length (output_objs parsed) /\
  length (rects parsed) = length (output_objs parsed).
Proof.
  cbn zeta. rewrite generate_proposals_filter. cbn.
  now rewrite !length_map.
Qed.

(** Every candidate that leaves the decoder has a confidence that is not
    below the threshold. *)
Lemma generate_proposals_confident (output_buffer : list (list Q)) (M : Matrix3f)
    (conf_threshold : Q) (obj : ArmorObject) :
  In obj (output_objs
            (generate_proposals no_proposals output_buffer M conf_threshold)) ->
  (conf_threshold <= prob obj)%Q.
Proof.
  rewrite generate_proposals_filter. cbn.
  intros Hin. apply in_map_iff in Hin. destruct Hin as [row [<- Hrow]].
  apply filter_In in Hrow. destruct Hrow as [_ Hpass].
  unfold passes in Hpass. apply negb_true_iff in Hpass.
  now apply Qlt_bool_false_iff in Hpass.
Qed.

(** C5.  For every raw row, the decoder keeps the row (appends its object,
    its confidence and its box) exactly when the confidence in column 8 is
    greater than or equal to the threshold, and skips it (leaves the three
    vectors as they are) exactly when the confidence is strictly below; a
    confidence equal to the threshold is kept. *)
Theorem decoder_threshold_inclusive (conf_threshold : Q) (M : Matrix3f)
    (acc : Proposals) (row : list Q) :
  let confidence := at_col row 8 in
  let kept :=
    {| output_objs := output_objs acc ++ [decode_object M row];
       scores := scores acc ++ [confidence];
       rects := rects acc ++ [box (decode_object M row)] |} in
  ((conf_threshold <= confidence)%Q
     <-> decode_row conf_threshold M acc row = kept) /\
  ((confidence < conf_threshold)%Q
     <-> decode_row conf_threshold M acc row = acc) /\
  ((confidence == conf_threshold)%Q
     -> decode_row conf_threshold M acc row = kept).
Proof.
  intros confidence kept.
  assert (kept <> acc) as Hne.
  { intros Heq. apply (f_equal (fun p => length (scores p))) in Heq.
    subst kept. cbn in Heq. rewrite length_app in Heq. cbn in Heq. lia. }
  unfold decode_row. fold confidence.
  destruct (Qlt_bool confidence conf_threshold) eqn:E.
  - apply Qlt_bool_iff in E.
    repeat split; intros H; try reflexivity; try assumption.
    + exfalso. exact (Qlt_not_le _ _ E H).
    + exfalso. now apply Hne.
    + exfalso. rewrite H in E. exact (Qlt_irrefl _ E).
  - apply Qlt_bool_false_iff in E. fold kept.
    repeat split; intros H; try reflexivity; try assumption.
    + exfalso. exact (Qlt_not_le _ _ H E).
    + exfalso. now apply Hne.
Qed.

(** ** The suppression filter *)

Section FilterFacts.

Variable bboxes : list Rect.
Variable confidences : list Q.
Variable score_threshold : Q.
Variable nms_threshold : Q.

Lemma insert_desc_length (i : nat) (l : list nat) :
  length (insert_desc confidences i l) = S (length l).
Proof.
  induction l as [|j l IH]; cbn; [reflexivity|].
  destruct (Qlt_bool _ _); cbn; [now rewrite IH | reflexivity].
Qed.

Lemma sort_desc_length (l : list nat) :
  length (sort_desc confidences l) = length l.
Proof.
  unfold sort_desc.
  induction l as [|i l IH]; cbn; [reflexivity|].
  now rewrite insert_desc_length, IH.
Qed.

Lemma suppress_length (budget : nat) (remaining : list nat) :
  (length (suppress bboxes nms_threshold budget remaining)
     <= Nat.min budget (length remaining))%nat.
Proof.
  revert remaining.
  induction budget as [|budget IH]; intros remaining; cbn; [lia|].
  destruct remaining as [|i rest]; cbn; [lia|].
  specialize (IH (filter (fun j => negb (overlaps bboxes nms_threshold i j)) rest)).
  pose proof (filter_length_le
                (fun j => negb (overlaps bboxes nms_threshold i j)) rest).
  lia.
Qed.

(** With a budget, the loop emits the first [budget] of what it emits
    without one. *)
Lemma suppress_firstn (budget n : nat) (remaining : list nat) :
  (length remaining <= n)%nat ->
  suppress bboxes nms_threshold budget remaining
  = firstn budget (suppress bboxes nms_threshold n remaining).
Proof.
  revert n remaining.
  induction budget as [|budget IH]; intros n remaining Hn; [reflexivity|].
  destruct remaining as [|i rest].
  - now destruct n.
  - destruct n as [|n]; [cbn in Hn; lia|]. cbn. f_equal.
    apply IH.
    pose proof (filter_length_le
                  (fun j => negb (overlaps bboxes nms_threshold i j)) rest).
    cbn in Hn. lia.
Qed.

Lemma nms_candidates_length :
  (length (nms_candidates confidences score_threshold)
     <= length confidences)%nat.
Proof.
  unfold nms_candidates. rewrite sort_desc_length.
  etransitivity; [apply filter_length_le|]. now rewrite length_seq.
Qed.

Lemma NMSBoxes_length (top_k : Z) :
  (length (NMSBoxes bboxes confidences score_threshold nms_threshold top_k)
     <= length confidences)%nat.
Proof.
  unfold NMSBoxes.
  pose proof (suppress_length (Z.to_nat top_k)
                (nms_candidates confidences score_threshold)).
  pose proof nms_candidates_length. lia.
Qed.

(** The filter emits the first [top_k] of the candidates that survive
    suppression. *)
Lemma NMSBoxes_top_k (top_k : Z) :
  NMSBoxes bboxes confidences score_threshold nms_threshold top_k
  = firstn (Z.to_nat top_k)
           (nms_survivors bboxes confidences score_threshold nms_threshold).
Proof. apply suppress_firstn. lia. Qed.

End FilterFacts.

(** ** Assembly of the result *)

Lemma collect_loop_firstn (objs_tmp : list ArmorObject) (n start : nat)
    (objs_result : list ArmorObject) :
  (start + n <= length objs_tmp)%nat ->
  collect_loop objs_tmp (seq start n) objs_result
  = Some (objs_result ++ firstn n (skipn start objs_tmp)).
Proof.
  revert start objs_result.
  induction n as [|n IH]; intros start objs_result Hlen; cbn.
  - now rewrite app_nil_r.
  - destruct (nth_error objs_tmp start) as [obj|] eqn:E.
    + rewrite IH by lia. rewrite <- app_assoc. cbn. do 2 f_equal.
      destruct (skipn start objs_tmp) as [|o rest] eqn:Es.
      * apply (f_equal (@length _)) in Es. rewrite length_skipn in Es.
        cbn in Es. lia.
      * assert (nth_error (skipn start objs_tmp) 0 = Some obj) as H0.
        { rewrite nth_error_skipn. now rewrite Nat.add_0_r. }
        rewrite Es in H0. cbn in H0. injection H0 as ->. cbn. f_equal.
        change rest with (skipn 1 (obj :: rest)). rewrite <- Es.
        rewrite skipn_skipn. reflexivity.
    + apply nth_error_None in E. lia.
Qed.

(** What the loop of lines 244-246 assembles: the first [indices.size()]
    candidates, in candidate order.  Only the length of [indices] is
    used. *)
Lemma collect_results_firstn (objs_tmp : list ArmorObject) (indices : list nat) :
  (length indices <= length objs_tmp)%nat ->
  collect_results objs_tmp indices = Some (firstn (length indices) objs_tmp).
Proof.
  intros Hlen. unfold collect_results.
  now rewrite collect_loop_firstn by lia.
Qed.

(** Decoding, suppression and assembly never read past the end of the
    candidates. *)
Lemma postprocess_firstn (d : OpenVINODetector) (output_buffer : list (list Q))
    (M : Matrix3f) :
  let parsed :=
    generate_proposals no_proposals output_buffer M (conf_threshold_ d) in
  let indices :=
    NMSBoxes (rects parsed) (scores parsed) (conf_threshold_ d)
             (nms_threshold_ d) (top_k_ d) in
  postprocess d output_buffer M
  = Some (firstn (length indices) (output_objs parsed)).
Proof.
  intros parsed indices. unfold postprocess. fold parsed. fold indices.
  apply collect_results_firstn.
  destruct (generate_proposals_lengths output_buffer M (conf_threshold_ d))
    as [Hs _].
  fold parsed in Hs. rewrite <- Hs. apply NMSBoxes_length.
Qed.

(** Every detection of the result has a confidence that is not below the
    threshold. *)
Lemma postprocess_confident (d : OpenVINODetector) (output_buffer : list (list Q))
    (M : Matrix3f) (objs_result : list ArmorObject) (obj : ArmorObject) :
  postprocess d output_buffer M = Some objs_result ->
  In obj objs_result -> (conf_threshold_ d <= prob obj)%Q.
Proof.
  rewrite postprocess_firstn. intros [= <-] Hin.
  apply (generate_proposals_confident output_buffer M).
  match type of Hin with
  | In _ (firstn ?n ?l) => rewrite <- (firstn_skipn n l)
  end.
  apply in_or_app. left. exact Hin.
Qed.

(** C1.  The assembly loop at a candidate list of two disjoint boxes, the
    second one the more confident.  The filter emits the indices [1; 0]
    (descending confidence); the loop reads [objs_tmp[i]] for the loop
    counter [i], not [objs_tmp[indices[i]]], and delivers the candidates
    0 and 1 in candidate order, where the projection of the filter's
    indices is candidate 1 followed by candidate 0. *)
Theorem collect_results_candidate_order :
  let parsed :=
    generate_proposals no_proposals reordered_rows identity_matrix (1 # 2) in
  let indices :=
    NMSBoxes (rects parsed) (scores parsed) (1 # 2) (1 # 2) 5 in
  let obj0 := decode_object identity_matrix (nth 0 reordered_rows []) in
  let obj1 := decode_object identity_matrix (nth 1 reordered_rows []) in
  output_objs parsed = [obj0; obj1] /\
  indices = [1%nat; 0%nat] /\
  collect_results (output_objs parsed) indices = Some [obj0; obj1] /\
  project_indices (output_objs parsed) indices = [Some obj1; Some obj0] /\
  prob obj0 = 6 # 10 /\ prob obj1 = 9 # 10 /\ obj0 <> obj1.
Proof.
  cbv zeta. repeat split; try (vm_compute; reflexivity).
  intros H. apply (f_equal prob) in H. vm_compute in H. discriminate H.
Qed.

(** C2.  The pipeline after inference at a tensor of two rows over the same
    box, confidences 0.6 and 0.9, with confidence threshold 0.5 and overlap
    threshold 0.5.  Both rows pass the cutoff; the filter keeps row 1 and
    suppresses row 0; the one detection delivered is the one decoded from
    row 0, the suppressed row, and the detection of the surviving row 1 is
    not delivered. *)
Theorem postprocess_emits_suppressed_row :
  let d := sample_detector (1 # 2) 5 (1 # 2) overlapping_rows None in
  let parsed :=
    generate_proposals no_proposals overlapping_rows identity_matrix (1 # 2) in
  let indices :=
    NMSBoxes (rects parsed) (scores parsed) (1 # 2) (1 # 2) 5 in
  let obj0 := decode_object identity_matrix (nth 0 overlapping_rows []) in
  let obj1 := decode_object identity_matrix (nth 1 overlapping_rows []) in
  output_objs parsed = [obj0; obj1] /\
  indices = [1%nat] /\
  postprocess d overlapping_rows identity_matrix = Some [obj0] /\
  project_indices (output_objs parsed) indices = [Some obj1] /\
  prob obj0 = 6 # 10 /\ prob obj1 = 9 # 10 /\ obj0 <> obj1.
Proof.
  cbv zeta. repeat split; try (vm_compute; reflexivity).
  intros H. apply (f_equal prob) in H. vm_compute in H. discriminate H.
Qed.

(** C3.  The pipeline after inference at a tensor of three rows,
    confidences 0.5, 0.9 and 0.8, with confidence threshold 0.25, overlap
    threshold 1 and a maximum of 2.  No overlap exceeds 1, so nothing is
    suppressed, whatever the boxes are: all three candidates survive, more
    than the maximum, with the boxes of the four points of each row and
    also with three boxes (0, 0, 0, 0), which is what [cv::boundingRect]
    returns for a vector of size 0.  The filter emits the indices 1 and 2;
    the result has exactly 2 detections, and they are the candidates 0 and
    1 (confidences 0.5 and 0.9), where the two most confident survivors are
    the candidates 1 and 2 (confidences 0.9 and 0.8). *)
Theorem postprocess_top_k_not_most_confident :
  let d := sample_detector (1 # 4) 2 1 disjoint_rows None in
  let parsed :=
    generate_proposals no_proposals disjoint_rows identity_matrix (1 # 4) in
  let survivors :=
    nms_survivors (rects parsed) (scores parsed) (1 # 4) 1 in
  let indices :=
    NMSBoxes (rects parsed) (scores parsed) (1 # 4) 1 2 in
  let no_boxes := repeat (mkRect 0 0 0 0) 3 in
  survivors = [1%nat; 2%nat; 0%nat] /\
  indices = [1%nat; 2%nat] /\
  nms_survivors no_boxes (scores parsed) (1 # 4) 1 = [1%nat; 2%nat; 0%nat] /\
  NMSBoxes no_boxes (scores parsed) (1 # 4) 1 2 = [1%nat; 2%nat] /\
  option_map (@length _) (postprocess d disjoint_rows identity_matrix)
    = Some 2%nat /\
  option_map (map prob) (postprocess d disjoint_rows identity_matrix)
    = Some [5 # 10; 9 # 10] /\
  map (option_map prob) (project_indices (output_objs parsed) indices)
    = [Some (9 # 10); Some (8 # 10)].
Proof.
  cbv zeta. repeat split; vm_compute; reflexivity.
Qed.

(** The part of the top-k property that the assembly keeps: when more
    candidates survive suppression than the maximum, the result has exactly
    the maximum number of detections. *)
Lemma postprocess_count (d : OpenVINODetector) (output_buffer : list (list Q))
    (M : Matrix3f) :
  let parsed :=
    generate_proposals no_proposals output_buffer M (conf_threshold_ d) in
  let survivors :=
    nms_survivors (rects parsed) (scores parsed) (conf_threshold_ d)
                  (nms_threshold_ d) in
  0 <= top_k_ d -> Z.of_nat (length survivors) > top_k_ d ->
  exists objs_result,
    postprocess d output_buffer M = Some objs_result /\
    Z.of_nat (length objs_result) = top_k_ d.
Proof.
  intros parsed survivors Hk Hmore.
  rewrite postprocess_firstn. fold parsed.
  eexists. split; [reflexivity|].
  rewrite NMSBoxes_top_k. fold survivors.
  pose proof (NMSBoxes_length (rects parsed) (scores parsed)
                (conf_threshold_ d) (nms_threshold_ d) (top_k_ d)) as Hlen.
  rewrite NMSBoxes_top_k in Hlen. fold survivors in Hlen.
  destruct (generate_proposals_lengths output_buffer M (conf_threshold_ d))
    as [Hs _].
  fold parsed in Hs.
  rewrite !length_firstn in *. lia.
Qed.

(** ** The stores into [obj.pts] *)

(** With four elements in the vector, as after [resize(4)], the four stores
    are in bounds. *)
Lemma store_after_resize (p0 p1 p2 p3 q : Point2f) :
  let pts0 := StdVector.resize 4 q StdVector.empty in
  StdVector.size pts0 = 4%nat /\
  exists pts1 pts2 pts3 pts4,
    StdVector.store 0 p0 pts0 = Some pts1 /\
    StdVector.store 1 p1 pts1 = Some pts2 /\
    StdVector.store 2 p2 pts2 = Some pts3 /\
    StdVector.store 3 p3 pts3 = Some pts4 /\
    StdVector.elems pts4 = [p0; p1; p2; p3].
Proof.
  cbn. split; [reflexivity|].
  do 4 eexists. repeat split.
Qed.

(** C9.  For every row that passes the cutoff, at the stores of lines
    125-128 the vector [obj.pts] has size 0: [reserve(4)] has raised the
    capacity to 4 and left the size at 0, so each of the indices 0 to 3 is
    at or past the size and none of the four stores is in bounds. *)
Theorem pts_stores_out_of_bounds (p0 p1 p2 p3 : Point2f) :
  let pts0 := StdVector.reserve 4 (@StdVector.empty Point2f) in
  StdVector.size pts0 = 0%nat /\
  StdVector.capacity pts0 = 4%nat /\
  (forall (i : nat) (p : Point2f), StdVector.store i p pts0 = None) /\
  store_pts_checked p0 p1 p2 p3 = None.
Proof.
  cbn. repeat split.
Qed.

(** ** The dispatcher *)

(** C7.  For every detector state (with or without a compiled model, with
    or without a callback) and every frame of zero width or zero height,
    the future returned by [push_input] resolves to [false] without a
    fault, and the work behind it has no effect: the model is not run and
    the callback is not called. *)
Theorem push_input_empty_frame (resize : Mat -> Z -> Z -> Mat)
    (d : OpenVINODetector) (rgb_img : Mat) (timestamp_nanosec : Z) :
  rows rgb_img = 0 \/ cols rgb_img = 0 ->
  let run := push_input resize d rgb_img timestamp_nanosec in
  resolved run = Some false /\
  trace run = [] /\
  model_calls run = 0%nat /\
  callback_calls run = 0%nat.
Proof.
  intros Hempty run.
  assert (empty rgb_img = true) as E.
  { unfold empty. apply orb_true_iff.
    destruct Hempty as [H | H]; [left | right]; now apply Z.eqb_eq. }
  subst run. unfold push_input. rewrite E. repeat split.
Qed.

Lemma process_callback_run (resize : Mat -> Z -> Z -> Mat)
    (d : OpenVINODetector) (model : CompiledModel) (resized_img : Mat)
    (M : Matrix3f) (timestamp_nanosec : Z) (src_img : Mat) :
  compiled_model_ d = Some model ->
  let blob :=
    blobFromImage resize resized_img 1 (INPUT_W, INPUT_H) (0, 0, 0)%Q true in
  exists objs_result,
    postprocess d (model blob) M = Some objs_result /\
    process_callback resize d resized_img M timestamp_nanosec src_img
    = match infer_callback_ d with
      | Some callback =>
        ([Infer blob; Call callback objs_result timestamp_nanosec src_img],
         Some true)
      | None => ([Infer blob], Some false)
      end.
Proof.
  intros Hmodel blob.
  eexists. split; [apply postprocess_firstn|].
  unfold process_callback. fold blob. rewrite Hmodel. cbn.
  rewrite postprocess_firstn. cbn.
  destruct (infer_callback_ d); reflexivity.
Qed.

(** ** The input tensor *)

Lemma unscaled_value (v : Z) : ((inject_Z v - 0) * 1)%Q = inject_Z v.
Proof.
  unfold Qminus, Qplus, Qmult, Qopp, inject_Z. cbn. f_equal. lia.
Qed.

Lemma plane_unscaled (channel : Vec3b -> Z) (m : Mat) :
  plane (fun p => ((inject_Z (channel p) - 0) * 1)%Q) m
  = plane (fun p => inject_Z (channel p)) m.
Proof.
  unfold plane. apply map_ext. intros row. apply map_ext. intros p.
  apply unscaled_value.
Qed.

(** C10.  For every image of the network input size handed to
    [process_callback] of a detector that holds a compiled model, the
    tensor the model is run on has one batch entry of three planes: the
    plane of channel 2, of channel 1 and of channel 0 of the image, each
    holding the pixel values as they are (scale factor 1, no mean
    subtracted, no resize). *)
Theorem input_tensor_unscaled (resize : Mat -> Z -> Z -> Mat)
    (d : OpenVINODetector) (model : CompiledModel) (resized_img : Mat)
    (M : Matrix3f) (timestamp_nanosec : Z) (src_img : Mat) :
  cols resized_img = INPUT_W -> rows resized_img = INPUT_H ->
  compiled_model_ d = Some model ->
  let run :=
    process_callback resize d resized_img M timestamp_nanosec src_img in
  filter is_infer (trace run)
  = [ Infer [ [ plane (fun p => inject_Z (ch2 p)) resized_img;
                plane (fun p => inject_Z (ch1 p)) resized_img;
                plane (fun p => inject_Z (ch0 p)) resized_img ] ] ].
Proof.
  intros Hc Hr Hmodel run.
  destruct (process_callback_run resize d model resized_img M
              timestamp_nanosec src_img Hmodel) as [objs_result [_ Hrun]].
  subst run. rewrite Hrun.
  assert (blobFromImage resize resized_img 1 (INPUT_W, INPUT_H) (0, 0, 0)%Q true
          = [ [ plane (fun p => inject_Z (ch2 p)) resized_img;
                plane (fun p => inject_Z (ch1 p)) resized_img;
                plane (fun p => inject_Z (ch0 p)) resized_img ] ]) as ->.
  { unfold blobFromImage. cbn [fst snd]. rewrite Hc, Hr, !Z.eqb_refl. cbn [andb].
    now rewrite !plane_unscaled. }
  destruct (infer_callback_ d); reflexivity.
Qed.

(** When [cv::resize] returns an image of the size it is asked for, the
    letterboxed image has exactly the target size: the tensor of
    [process_callback] is then built from it without a further resize. *)
Lemma letterbox_size (resize : Mat -> Z -> Z -> Mat) (img : Mat)
    (new_shape : Z * Z) :
  (forall m w h, cols (resize m w h) = w /\ rows (resize m w h) = h) ->
  cols (fst (letterbox resize img new_shape)) = fst new_shape /\
  rows (fst (letterbox resize img new_shape)) = snd new_shape.
Proof.
  intros Hresize. cbn.
  destruct (Hresize img (resize_w img new_shape) (resize_h img new_shape))
    as [-> ->].
  unfold top, bottom, left, right, half_h, half_w.
  destruct (padding_split (pad_h img new_shape)) as [-> ->].
  destruct (padding_split (pad_w img new_shape)) as [-> ->].
  unfold pad_h, pad_w. lia.
Qed.

(** ** The theorems at sample inputs *)

(** A 1280 x 1024 frame and the corner (416, 416) of the network image. *)
Lemma letterbox_corner_roundtrip_witness :
  let img := uniform_image 1280 1024 (mkVec3b 0 0 0) in
  let new_shape := (INPUT_W, INPUT_H) in
  let c := mkPoint2f (inject_Z INPUT_W) (inject_Z INPUT_H) in
  let M := snd (letterbox sample_resize img new_shape) in
  let back := forward_map img new_shape (transform_point M c) in
  (0 < rows img /\ 0 < cols img /\ 0 < fst new_shape /\ 0 < snd new_shape /\
   In c (network_corners new_shape)) /\
  ((Qabs (px back - px c) <= 1)%Q /\ (Qabs (py back - py c) <= 1)%Q).
Proof.
  intros img new_shape c M back.
  assert (0 < rows img) as H1 by reflexivity.
  assert (0 < cols img) as H2 by reflexivity.
  assert (0 < fst new_shape) as H3 by reflexivity.
  assert (0 < snd new_shape) as H4 by reflexivity.
  assert (In c (network_corners new_shape)) as H5
    by (right; right; right; left; reflexivity).
  exact (conj (conj H1 (conj H2 (conj H3 (conj H4 H5))))
              (letterbox_corner_roundtrip sample_resize img new_shape c
                 H1 H2 H3 H4 H5)).
Defined.

(** A frame of width 0 submitted to a detector with a model and a
    callback. *)
Lemma push_input_empty_frame_witness :
  let d := sample_detector (1 # 4) 5 (1 # 2) disjoint_rows (Some 7%nat) in
  let rgb_img := uniform_image 0 480 (mkVec3b 0 0 0) in
  let run := push_input sample_resize d rgb_img 42 in
  (rows rgb_img = 0 \/ cols rgb_img = 0) /\
  (resolved run = Some false /\ trace run = [] /\
   model_calls run = 0%nat /\ callback_calls run = 0%nat).
Proof.
  intros d rgb_img run.
  assert (rows rgb_img = 0 \/ cols rgb_img = 0) as H by (right; reflexivity).
  exact (conj H (push_input_empty_frame sample_resize d rgb_img 42 H)).
Defined.

(** An image of the network input size handed to [process_callback]. *)
Lemma input_tensor_unscaled_witness :
  let d := sample_detector (1 # 4) 5 (1 # 2) disjoint_rows None in
  let model := sample_model disjoint_rows in
  let resized_img := uniform_image INPUT_W INPUT_H (mkVec3b 10 20 30) in
  let src_img := uniform_image 4 2 (mkVec3b 10 20 30) in
  let run :=
    process_callback sample_resize d resized_img identity_matrix 42 src_img in
  (cols resized_img = INPUT_W /\ rows resized_img = INPUT_H /\
   compiled_model_ d = Some model) /\
  filter is_infer (trace run)
  = [ Infer [ [ plane (fun p => inject_Z (ch2 p)) resized_img;
                plane (fun p => inject_Z (ch1 p)) resized_img;
                plane (fun p => inject_Z (ch0 p)) resized_img ] ] ].
Proof.
  intros d model resized_img src_img run.
  assert (cols resized_img = INPUT_W) as H1 by reflexivity.
  assert (rows resized_img = INPUT_H) as H2 by reflexivity.
  assert (compiled_model_ d = Some model) as H3 by reflexivity.
  exact (conj (conj H1 (conj H2 H3))
              (input_tensor_unscaled sample_resize d model resized_img
                 identity_matrix 42 src_img H1 H2 H3)).
Defined.

(** ** The rational model against IEEE arithmetic

    [half] is a half-integer: binary32 holds it exactly as long as the
    padding is below 2^24.  After that, [half - 0.1] and [half + 0.1] are
    off by far less than the distance to the next half-integer, which is
    what [padding_split_perturbation] allows for.  The lemmas below compare
    the two computations bit for bit on the network input size. *)

(** For every padding that a 416-pixel extent can leave, the borders
    computed in binary32 and binary64 are those of the rational model. *)
Lemma ieee_padding_split (pad : Z) :
  0 <= pad <= INPUT_W ->
  IEEE.leading pad = round (inject_Z pad * 1 / 2 - (1 # 10)) /\
  IEEE.trailing pad = round (inject_Z pad * 1 / 2 + (1 # 10)).
Proof.
  intros Hpad.
  destruct (padding_split pad) as [-> ->].
  assert (forallb ieee_split_agrees (seq 0 417) = true) as Hall
    by (vm_compute; reflexivity).
  rewrite forallb_forall in Hall.
  specialize (Hall (Z.to_nat pad)).
  unfold ieee_split_agrees in Hall.
  rewrite Z2Nat.id in Hall by lia.
  assert (In (Z.to_nat pad) (seq 0 417)) as Hin.
  { apply in_seq. unfold INPUT_W in Hpad. lia. }
  apply Hall in Hin. apply andb_true_iff in Hin.
  destruct Hin as [Hl Ht]. apply Z.eqb_eq in Hl, Ht. now split.
Qed.

(** On the sample frame sizes, the resized size and the four borders
    computed in IEEE arithmetic are those of the rational model. *)
Lemma ieee_letterbox_samples :
  Forall (fun frame =>
            IEEE.integers frame (INPUT_W, INPUT_H)
            = letterbox_integers frame (INPUT_W, INPUT_H))
         sample_frames.
Proof.
  unfold sample_frames. cbn [map].
  repeat (constructor; [vm_compute; reflexivity|]). constructor.
Qed.

(** On the sample frame sizes, with the matrix entries and the product
    computed in binary32, the corner of the network image comes back
    within one pixel of itself. *)
Lemma ieee_corner_roundtrip_samples :
  Forall (fun frame =>
            let err := IEEE.corner_error frame (INPUT_W, INPUT_H) in
            (Qabs (fst err) <= 1)%Q /\ (Qabs (snd err) <= 1)%Q)
         sample_frames.
Proof.
  unfold sample_frames. cbn [map].
  repeat (constructor;
          [cbv zeta; split; apply Qle_bool_iff; vm_compute; reflexivity|]).
  constructor.
Qed.

(** * Further properties *)

(** ** letterbox: extents and borders *)

Lemma round_le_int (x : Q) (k : Z) : (x <= inject_Z k)%Q -> round x <= k.
Proof.
  intros Hx. unfold round.
  destruct (Qle_bool 0 x).
  - pose proof (Qfloor_le (x + (1 # 2))) as Hf.
    assert (Qfloor (x + (1 # 2)) < k + 1); [|lia].
    rewrite Zlt_Qlt, inject_Z_plus. change (inject_Z 1) with 1%Q. lra.
  - pose proof (Qceiling_lt (x - (1 # 2))) as Hc.
    unfold Z.sub in Hc. rewrite inject_Z_plus in Hc.
    change (inject_Z (- (1))) with (- (1))%Q in Hc.
    assert (Qceiling (x - (1 # 2)) < k + 1); [|lia].
    rewrite Zlt_Qlt, inject_Z_plus. change (inject_Z 1) with 1%Q. lra.
Qed.

Lemma round_nonneg (x : Q) : (0 <= x)%Q -> 0 <= round x.
Proof.
  intros Hx. unfold round.
  apply Qle_bool_iff in Hx as Hb. rewrite Hb.
  change 0 with (Qfloor 0). apply Qfloor_resp_le. lra.
Qed.

Lemma round_int (x : Q) (k : Z) : (x == inject_Z k)%Q -> round x = k.
Proof. intros Hx. apply round_away_from_half; lra. Qed.

Lemma inject_Z_pos (a : Z) : 0 < a -> (0 < inject_Z a)%Q.
Proof. intros Ha. change 0%Q with (inject_Z 0). now rewrite <- Zlt_Qlt. Qed.

(** Scaled by [scale], neither extent of the source exceeds the target. *)
Lemma scaled_extents (img : Mat) (new_shape : Z * Z) :
  0 < rows img -> 0 < cols img -> 0 < fst new_shape -> 0 < snd new_shape ->
  (0 <= inject_Z (img_h img) * scale img new_shape)%Q /\
  (inject_Z (img_h img) * scale img new_shape <= inject_Z (snd new_shape))%Q /\
  (0 <= inject_Z (img_w img) * scale img new_shape)%Q /\
  (inject_Z (img_w img) * scale img new_shape <= inject_Z (fst new_shape))%Q.
Proof.
  intros Hr Hc Hw Hh.
  pose proof (scale_pos img new_shape Hr Hc Hw Hh) as Hs.
  pose proof (inject_Z_pos _ Hr) as Hr'. pose proof (inject_Z_pos _ Hc) as Hc'.
  unfold img_h, img_w.
  assert (scale img new_shape
          <= inject_Z (snd new_shape) * 1 / inject_Z (rows img))%Q as H1
    by apply Q.le_min_l.
  assert (scale img new_shape
          <= inject_Z (fst new_shape) * 1 / inject_Z (cols img))%Q as H2
    by apply Q.le_min_r.
  apply (Qmult_le_l _ _ _ Hr') in H1. apply (Qmult_le_l _ _ _ Hc') in H2.
  assert (inject_Z (rows img)
          * (inject_Z (snd new_shape) * 1 / inject_Z (rows img))
          == inject_Z (snd new_shape))%Q as E1 by (field; lra).
  assert (inject_Z (cols img)
          * (inject_Z (fst new_shape) * 1 / inject_Z (cols img))
          == inject_Z (fst new_shape))%Q as E2 by (field; lra).
  rewrite E1 in H1. rewrite E2 in H2.
  repeat split; try assumption; apply Qmult_le_0_compat; lra.
Qed.

Lemma resized_extents_bounded (img : Mat) (new_shape : Z * Z) :
  0 < rows img -> 0 < cols img -> 0 < fst new_shape -> 0 < snd new_shape ->
  0 <= resize_w img new_shape <= fst new_shape /\
  0 <= resize_h img new_shape <= snd new_shape.
Proof.
  intros Hr Hc Hw Hh.
  destruct (scaled_extents img new_shape Hr Hc Hw Hh) as [A [B [C D]]].
  unfold resize_w, resize_h.
  repeat split; (now apply round_nonneg) || (now apply round_le_int).
Qed.

Lemma borders_nonneg (img : Mat) (new_shape : Z * Z) :
  0 <= pad_w img new_shape -> 0 <= pad_h img new_shape ->
  0 <= top img new_shape /\ 0 <= bottom img new_shape /\
  0 <= left img new_shape /\ 0 <= right img new_shape.
Proof.
  intros Pw Ph. unfold top, bottom, left, right, half_h, half_w.
  destruct (padding_split (pad_h img new_shape)) as [-> ->].
  destruct (padding_split (pad_w img new_shape)) as [-> ->].
  repeat split; div_lia.
Qed.

(** X1.  For a non-empty source and a positive target size, the resized
    extents lie between 0 and the target extents, so the paddings and the
    four borders handed to [copyMakeBorder] are never negative. *)
Theorem letterbox_extents_within_target (img : Mat) (new_shape : Z * Z) :
  0 < rows img -> 0 < cols img -> 0 < fst new_shape -> 0 < snd new_shape ->
  (0 <= resize_w img new_shape <= fst new_shape /\
   0 <= resize_h img new_shape <= snd new_shape) /\
  (0 <= pad_w img new_shape /\ 0 <= pad_h img new_shape) /\
  (0 <= top img new_shape /\ 0 <= bottom img new_shape /\
   0 <= left img new_shape /\ 0 <= right img new_shape).
Proof.
  intros Hr Hc Hw Hh.
  pose proof (resized_extents_bounded img new_shape Hr Hc Hw Hh) as [Rw Rh].
  assert (0 <= pad_w img new_shape) as Pw by (unfold pad_w; lia).
  assert (0 <= pad_h img new_shape) as Ph by (unfold pad_h; lia).
  split; [now split|]. split; [now split|].
  now apply borders_nonneg.
Qed.

(** X2.  The scale is the largest one that fits: on at least one axis the
    resized extent is the target extent and that axis gets no border. *)
Theorem letterbox_fills_one_axis (img : Mat) (new_shape : Z * Z) :
  0 < rows img -> 0 < cols img -> 0 < fst new_shape -> 0 < snd new_shape ->
  (resize_h img new_shape = snd new_shape /\
   top img new_shape = 0 /\ bottom img new_shape = 0) \/
  (resize_w img new_shape = fst new_shape /\
   left img new_shape = 0 /\ right img new_shape = 0).
Proof.
  intros Hr Hc Hw Hh.
  pose proof (inject_Z_pos _ Hr) as Hr'. pose proof (inject_Z_pos _ Hc) as Hc'.
  destruct (Q.min_spec (inject_Z (snd new_shape) * 1 / inject_Z (rows img))
                       (inject_Z (fst new_shape) * 1 / inject_Z (cols img)))
    as [[_ E] | [_ E]]; fold (img_h img) (img_w img) in E;
    fold (scale img new_shape) in E; [left | right].
  - assert (resize_h img new_shape = snd new_shape) as R.
    { unfold resize_h. apply round_int. rewrite E. unfold img_h. field. lra. }
    split; [exact R|].
    unfold top, bottom, half_h, pad_h. rewrite R, Z.sub_diag. now vm_compute.
  - assert (resize_w img new_shape = fst new_shape) as R.
    { unfold resize_w. apply round_int. rewrite E. unfold img_w. field. lra. }
    split; [exact R|].
    unfold left, right, half_w, pad_w. rewrite R, Z.sub_diag. now vm_compute.
Qed.

(** ** letterbox: the padded image *)

Lemma Forall_repeat {A : Type} (P : A -> Prop) (x : A) (n : nat) :
  P x -> Forall P (repeat x n).
Proof. intros Hx. induction n; cbn; constructor; assumption. Qed.

Lemma copyMakeBorder_shape (src : Mat) (t b l r : Z) (value : Vec3b) :
  well_formed src -> 0 <= t -> 0 <= b -> 0 <= l -> 0 <= r ->
  rows (copyMakeBorder src t b l r value) = t + rows src + b /\
  cols (copyMakeBorder src t b l r value) = l + cols src + r /\
  well_formed (copyMakeBorder src t b l r value).
Proof.
  intros [Hrows [Hcols [Hlen Hlines]]] Ht Hb Hl Hr.
  split; [reflexivity|]. split; [reflexivity|].
  unfold well_formed, copyMakeBorder. cbn [rows cols data].
  split; [lia|]. split; [lia|]. split.
  - rewrite !length_app, !repeat_length, length_map, Hlen. lia.
  - repeat (apply Forall_app; split).
    + apply Forall_repeat. rewrite repeat_length. reflexivity.
    + apply Forall_map. eapply Forall_impl; [|exact Hlines].
      intros line Hline. cbn beta.
      rewrite !length_app, !repeat_length, Hline. lia.
    + apply Forall_repeat. rewrite repeat_length. reflexivity.
Qed.

(** A source pixel is found again [t] rows down and [l] columns right. *)
Lemma copyMakeBorder_interior (src : Mat) (t b l r : Z) (value p : Vec3b)
    (y x : nat) :
  pixel_at src y x = Some p ->
  pixel_at (copyMakeBorder src t b l r value)
           (Z.to_nat t + y) (Z.to_nat l + x) = Some p.
Proof.
  unfold pixel_at, copyMakeBorder. cbn [data].
  destruct (nth_error (data src) y) as [line|] eqn:Ey; [|discriminate].
  intros Hx.
  rewrite nth_error_app2 by (rewrite repeat_length; lia).
  rewrite repeat_length.
  replace (Z.to_nat t + y - Z.to_nat t)%nat with y by lia.
  assert (y < length (data src))%nat as Hy
    by (apply nth_error_Some; congruence).
  rewrite nth_error_app1 by (now rewrite length_map).
  rewrite nth_error_map, Ey. cbn [option_map].
  rewrite nth_error_app2 by (rewrite repeat_length; lia).
  rewrite repeat_length.
  replace (Z.to_nat l + x - Z.to_nat l)%nat with x by lia.
  assert (x < length line)%nat as Hxl by (apply nth_error_Some; congruence).
  now rewrite nth_error_app1.
Qed.

Lemma nth_error_repeat_Some {A : Type} (x y : A) (n i : nat) :
  nth_error (repeat x n) i = Some y -> y = x.
Proof.
  intros H. apply nth_error_In in H. now apply repeat_spec in H.
Qed.

(** Every pixel of the result is the border colour or a source pixel,
    [t] rows down and [l] columns right of where it was. *)
Lemma copyMakeBorder_pixels (src : Mat) (t b l r : Z) (value p : Vec3b)
    (y x : nat) :
  pixel_at (copyMakeBorder src t b l r value) y x = Some p ->
  p = value \/
  exists y' x', y = (Z.to_nat t + y')%nat /\ x = (Z.to_nat l + x')%nat /\
                pixel_at src y' x' = Some p.
Proof.
  unfold pixel_at at 1. unfold copyMakeBorder. cbn [data].
  destruct (Nat.lt_ge_cases y (Z.to_nat t)) as [Hy | Hy].
  - rewrite nth_error_app1 by (now rewrite repeat_length).
    destruct (nth_error (repeat _ _) y) as [line|] eqn:E; [|discriminate].
    apply nth_error_repeat_Some in E. subst line.
    intros H. left. now apply nth_error_repeat_Some in H.
  - rewrite nth_error_app2 by (now rewrite repeat_length).
    rewrite repeat_length.
    destruct (Nat.lt_ge_cases (y - Z.to_nat t) (length (data src)))
      as [Hy2 | Hy2].
    + rewrite nth_error_app1 by (now rewrite length_map).
      rewrite nth_error_map.
      destruct (nth_error (data src) (y - Z.to_nat t)) as [line|] eqn:Ey;
        [|discriminate].
      cbn [option_map].
      destruct (Nat.lt_ge_cases x (Z.to_nat l)) as [Hx | Hx].
      * rewrite nth_error_app1 by (now rewrite repeat_length).
        intros H. left. now apply nth_error_repeat_Some in H.
      * rewrite nth_error_app2 by (now rewrite repeat_length).
        rewrite repeat_length.
        destruct (Nat.lt_ge_cases (x - Z.to_nat l) (length line))
          as [Hx2 | Hx2].
        -- rewrite nth_error_app1 by assumption.
           intros H. right. exists (y - Z.to_nat t)%nat, (x - Z.to_nat l)%nat.
           repeat split; try lia. unfold pixel_at. now rewrite Ey.
        -- rewrite nth_error_app2 by assumption.
           intros H. left. now apply nth_error_repeat_Some in H.
    + rewrite nth_error_app2 by (now rewrite length_map).
      destruct (nth_error (repeat _ _) _) as [line|] eqn:E; [|discriminate].
      apply nth_error_repeat_Some in E. subst line.
      intros H. left. now apply nth_error_repeat_Some in H.
Qed.

(** X3.  When [cv::resize] returns an image of the size it is asked for,
    the image that [letterbox] returns for a non-empty source has exactly
    the target size, as [rows] and [cols] and as a pixel grid. *)
Theorem letterbox_image_shape (resize : Mat -> Z -> Z -> Mat) (img : Mat)
    (new_shape : Z * Z) :
  resizes_to_size resize ->
  0 < rows img -> 0 < cols img -> 0 < fst new_shape -> 0 < snd new_shape ->
  let out := fst (letterbox resize img new_shape) in
  rows out = snd new_shape /\ cols out = fst new_shape /\ well_formed out.
Proof.
  intros Hresize Hr Hc Hw Hh out.
  pose proof (resized_extents_bounded img new_shape Hr Hc Hw Hh) as [Rw Rh].
  assert (0 <= pad_w img new_shape) as Pw by (unfold pad_w; lia).
  assert (0 <= pad_h img new_shape) as Ph by (unfold pad_h; lia).
  destruct (borders_nonneg img new_shape Pw Ph) as [Bt [Bb [Bl Br]]].
  destruct (Hresize img (resize_w img new_shape) (resize_h img new_shape))
    as [Sr [Sc Swf]]; try lia.
  subst out. unfold letterbox. cbn [fst].
  destruct (copyMakeBorder_shape
              (resize img (resize_w img new_shape) (resize_h img new_shape))
              (top img new_shape) (bottom img new_shape)
              (left img new_shape) (right img new_shape)
              (mkVec3b 114 114 114) Swf Bt Bb Bl Br) as [-> [-> Hwf]].
  rewrite Sr, Sc.
  assert (top img new_shape + bottom img new_shape = pad_h img new_shape /\
          left img new_shape + right img new_shape = pad_w img new_shape)
    as [Hh' Hw'].
  { unfold top, bottom, left, right, half_h, half_w.
    destruct (padding_split (pad_h img new_shape)) as [-> ->].
    destruct (padding_split (pad_w img new_shape)) as [-> ->]. lia. }
  unfold pad_h, pad_w in Hh', Hw'.
  split; [lia|]. split; [lia|]. exact Hwf.
Qed.

(** X4.  The image that [letterbox] returns holds the resized image
    unchanged, [top] rows down and [left] columns right, and every other
    pixel of it has the colour (114, 114, 114). *)
Theorem letterbox_pixels (resize : Mat -> Z -> Z -> Mat) (img : Mat)
    (new_shape : Z * Z) (y x : nat) (p : Vec3b) :
  let resized_img :=
    resize img (resize_w img new_shape) (resize_h img new_shape) in
  let out := fst (letterbox resize img new_shape) in
  let dy := Z.to_nat (top img new_shape) in
  let dx := Z.to_nat (left img new_shape) in
  (pixel_at resized_img y x = Some p ->
   pixel_at out (dy + y) (dx + x) = Some p) /\
  (pixel_at out y x = Some p ->
   p = mkVec3b 114 114 114 \/
   exists y' x', y = (dy + y')%nat /\ x = (dx + x')%nat /\
                 pixel_at resized_img y' x' = Some p).
Proof.
  intros resized_img out dy dx. subst out. unfold letterbox. cbn [fst].
  split.
  - apply copyMakeBorder_interior.
  - apply copyMakeBorder_pixels.
Qed.

(** ** generate_proposals: what the three vectors hold *)

(** X6.  Started on empty vectors, the decoder returns one candidate per
    row that passes the cutoff, in the order of the rows, and the three
    vectors stay parallel: the k-th score is the confidence of the k-th
    object and the k-th box is its bounding box. *)
Theorem generate_proposals_parallel (output_buffer : list (list Q))
    (M : Matrix3f) (conf_threshold : Q) :
  let parsed := generate_proposals no_proposals output_buffer M conf_threshold in
  output_objs parsed
  = map (decode_object M) (filter (passes conf_threshold) output_buffer) /\
  scores parsed = map prob (output_objs parsed) /\
  rects parsed = map box (output_objs parsed) /\
  (length (output_objs parsed) <= length output_buffer)%nat.
Proof.
  cbv zeta. rewrite generate_proposals_filter. cbn [output_objs scores rects].
  cbn [no_proposals app output_objs scores rects].
  repeat split; rewrite ?map_map; try reflexivity.
  rewrite length_map. apply filter_length_le.
Qed.

(** X7.  The decoder only appends: what the three vectors hold on entry
    stays in front, and decoding a tensor in two parts, one after the
    other, gives what decoding it in one go gives. *)
Theorem generate_proposals_appends (acc : Proposals)
    (rows1 rows2 : list (list Q)) (M : Matrix3f) (conf_threshold : Q) :
  generate_proposals acc (rows1 ++ rows2) M conf_threshold
  = generate_proposals (generate_proposals acc rows1 M conf_threshold)
                       rows2 M conf_threshold /\
  firstn (length (output_objs acc))
         (output_objs (generate_proposals acc rows1 M conf_threshold))
  = output_objs acc /\
  firstn (length (scores acc))
         (scores (generate_proposals acc rows1 M conf_threshold))
  = scores acc /\
  firstn (length (rects acc))
         (rects (generate_proposals acc rows1 M conf_threshold))
  = rects acc.
Proof.
  split.
  - unfold generate_proposals. apply fold_left_app.
  - rewrite generate_proposals_filter. cbn [output_objs scores rects].
    repeat split;
      rewrite firstn_app, Nat.sub_diag, firstn_all, firstn_O;
      apply app_nil_r.
Qed.

(** ** generate_proposals: the class labels *)

(** The scan keeps the first index of the largest value seen so far:
    [prefix] is what has been scanned, [rest] what is left. *)
Lemma argmax_from_first_max (rest prefix : list Q) (best_i : nat) :
  (best_i < length prefix)%nat ->
  (forall j, (j < length prefix)%nat ->
             (nth j prefix 0 <= nth best_i prefix 0)%Q) ->
  (forall j, (j < best_i)%nat -> (nth j prefix 0 < nth best_i prefix 0)%Q) ->
  let a := argmax_from best_i (nth best_i prefix 0%Q) (length prefix) rest in
  let l := prefix ++ rest in
  (a < length l)%nat /\
  (forall j, (j < length l)%nat -> (nth j l 0 <= nth a l 0)%Q) /\
  (forall j, (j < a)%nat -> (nth j l 0 < nth a l 0)%Q).
Proof.
  revert prefix best_i.
  induction rest as [|x rest IH]; intros prefix best_i Hb Hmax Hfirst; cbn zeta.
  - cbn [argmax_from]. rewrite app_nil_r. repeat split; assumption.
  - cbn [argmax_from].
    replace (prefix ++ x :: rest) with ((prefix ++ [x]) ++ rest)
      by (rewrite <- app_assoc; reflexivity).
    assert (length (prefix ++ [x]) = S (length prefix)) as Hlen
      by (rewrite length_app; cbn; lia).
    assert (forall j, (j < length prefix)%nat ->
                      nth j (prefix ++ [x]) 0%Q = nth j prefix 0%Q) as Hold
      by (intros j Hj; now apply app_nth1).
    assert (nth (length prefix) (prefix ++ [x]) 0%Q = x) as Hnew
      by apply nth_middle.
    destruct (Qlt_bool (nth best_i prefix 0%Q) x) eqn:E.
    + apply Qlt_bool_iff in E.
      specialize (IH (prefix ++ [x]) (length prefix)). cbv zeta in IH.
      rewrite Hnew, Hlen in IH. apply IH.
      * lia.
      * intros j Hj.
        destruct (Nat.eq_dec j (length prefix)) as [-> | Hne].
        -- rewrite Hnew. apply Qle_refl.
        -- rewrite Hold by lia. apply Qlt_le_weak.
           eapply Qle_lt_trans; [apply Hmax; lia | exact E].
      * intros j Hj. rewrite Hold by lia.
        eapply Qle_lt_trans; [apply Hmax; lia | exact E].
    + apply Qlt_bool_false_iff in E.
      specialize (IH (prefix ++ [x]) best_i). cbv zeta in IH.
      rewrite (Hold best_i Hb), Hlen in IH. apply IH.
      * lia.
      * intros j Hj.
        destruct (Nat.eq_dec j (length prefix)) as [-> | Hne].
        -- now rewrite Hnew.
        -- rewrite Hold by lia. apply Hmax. lia.
      * intros j Hj. rewrite Hold by lia. now apply Hfirst.
Qed.

(** On a non-empty row of scores, [argmax] is the first index that holds
    the largest score. *)
Lemma argmax_first_max (l : list Q) :
  l <> [] ->
  (argmax l < length l)%nat /\
  (forall j, (j < length l)%nat -> (nth j l 0 <= nth (argmax l) l 0)%Q) /\
  (forall j, (j < argmax l)%nat -> (nth j l 0 < nth (argmax l) l 0)%Q).
Proof.
  destruct l as [|x l]; [congruence|]. intros _.
  apply (argmax_from_first_max l [x] 0%nat).
  - cbn. lia.
  - intros j Hj. cbn in Hj. replace j with 0%nat by lia. apply Qle_refl.
  - intros j Hj. lia.
Qed.

Lemma colRange_nth (row : list Q) (a b j : nat) :
  (j < b - a)%nat -> nth j (colRange row a b) 0%Q = at_col row (a + j).
Proof.
  intros Hj. unfold colRange, at_col.
  rewrite nth_firstn, nth_skipn.
  now apply Nat.ltb_lt in Hj as ->.
Qed.

Lemma colRange_length (row : list Q) (a b : nat) :
  (b <= length row)%nat -> length (colRange row a b) = (b - a)%nat.
Proof.
  intros Hb. unfold colRange. rewrite length_firstn, length_skipn. lia.
Qed.

(** X8.  For a row that has all its [9 + NUM_COLORS + NUM_CLASSES] columns,
    the colour index of the decoded object is below [NUM_COLORS] and its
    number index is below [NUM_CLASSES]: the casts to [ArmorColor] and
    [ArmorNumber] are applied to indices of the two score ranges. *)
Theorem decode_object_labels_in_range (M : Matrix3f) (row : list Q) :
  (9 + NUM_COLORS + NUM_CLASSES <= length row)%nat ->
  (color (decode_object M row) < NUM_COLORS)%nat /\
  (number (decode_object M row) < NUM_CLASSES)%nat.
Proof.
  intros Hlen. unfold NUM_COLORS, NUM_CLASSES in *. cbn [decode_object color number].
  split.
  - assert (length (colRange row 9 (9 + 4)) = 4%nat) as Hl
      by (rewrite colRange_length; lia).
    destruct (argmax_first_max (colRange row 9 (9 + 4))) as [Ha _].
    + intros E. rewrite E in Hl. discriminate Hl.
    + unfold NUM_COLORS. lia.
  - assert (length (colRange row (9 + 4) (9 + 4 + 8)) = 8%nat) as Hl
      by (rewrite colRange_length; lia).
    destruct (argmax_first_max (colRange row (9 + 4) (9 + 4 + 8))) as [Ha _].
    + intros E. rewrite E in Hl. discriminate Hl.
    + unfold NUM_COLORS, NUM_CLASSES. lia.
Qed.

(** X9.  For a row that has all its columns, the colour of the decoded
    object is the first one with the largest colour score: no colour score
    of the row is larger, and every earlier one is strictly smaller.  The
    same holds for the number among the number scores. *)
Theorem decode_object_labels_first_max (M : Matrix3f) (row : list Q) :
  (9 + NUM_COLORS + NUM_CLASSES <= length row)%nat ->
  let c := color (decode_object M row) in
  let n := number (decode_object M row) in
  (forall j, (j < NUM_COLORS)%nat ->
     (at_col row (9 + j) <= at_col row (9 + c))%Q) /\
  (forall j, (j < c)%nat -> (at_col row (9 + j) < at_col row (9 + c))%Q) /\
  (forall j, (j < NUM_CLASSES)%nat ->
     (at_col row (9 + NUM_COLORS + j)
      <= at_col row (9 + NUM_COLORS + n))%Q) /\
  (forall j, (j < n)%nat ->
     (at_col row (9 + NUM_COLORS + j) < at_col row (9 + NUM_COLORS + n))%Q).
Proof.
  intros Hlen c n. subst c n.
  unfold NUM_COLORS, NUM_CLASSES in *. cbn [decode_object color number].
  unfold NUM_COLORS, NUM_CLASSES.
  set (cs := colRange row 9 (9 + 4)).
  set (ns := colRange row (9 + 4) (9 + 4 + 8)).
  assert (length cs = 4%nat) as Hcs by (subst cs; rewrite colRange_length; lia).
  assert (length ns = 8%nat) as Hns by (subst ns; rewrite colRange_length; lia).
  destruct (argmax_first_max cs) as [Ca [Cmax Cfirst]];
    [intros E; rewrite E in Hcs; discriminate Hcs|].
  destruct (argmax_first_max ns) as [Na [Nmax Nfirst]];
    [intros E; rewrite E in Hns; discriminate Hns|].
  assert (forall j, (j < 4)%nat -> nth j cs 0%Q = at_col row (9 + j)) as Hc
    by (intros j Hj; subst cs; apply colRange_nth; lia).
  assert (forall j, (j < 8)%nat -> nth j ns 0%Q = at_col row (9 + 4 + j)) as Hn
    by (intros j Hj; subst ns; apply colRange_nth; lia).
  repeat split; intros j Hj.
  - rewrite <- !Hc by lia. apply Cmax. lia.
  - rewrite <- !Hc by lia. now apply Cfirst.
  - rewrite <- !Hn by lia. apply Nmax. lia.
  - rewrite <- !Hn by lia. now apply Nfirst.
Qed.

(** ** process_callback: the assembled result *)

Lemma collect_loop_past_end (objs_tmp : list ArmorObject) (n start : nat)
    (objs_result : list ArmorObject) :
  (length objs_tmp < start + n)%nat -> (0 < n)%nat ->
  collect_loop objs_tmp (seq start n) objs_result = None.
Proof.
  revert start objs_result.
  induction n as [|n IH]; intros start objs_result Hlen Hn; [lia|]. cbn.
  destruct (nth_error objs_tmp start) as [obj|] eqn:E; [|reflexivity].
  assert (start < length objs_tmp)%nat by (apply nth_error_Some; congruence).
  apply IH; lia.
Qed.

(** X10.  The loop of lines 244-246 returns the first [indices.size()]
    candidates in candidate order when there are at least that many, and
    reads past the end of the candidates otherwise; the values of the
    indices play no part. *)
Theorem collect_results_prefix_or_fault (objs_tmp : list ArmorObject)
    (indices : list nat) :
  ((length indices <= length objs_tmp)%nat ->
   collect_results objs_tmp indices = Some (firstn (length indices) objs_tmp)) /\
  ((length objs_tmp < length indices)%nat ->
   collect_results objs_tmp indices = None) /\
  (forall indices', length indices' = length indices ->
   collect_results objs_tmp indices' = collect_results objs_tmp indices).
Proof.
  split; [apply collect_results_firstn|]. split.
  - intros Hlen. unfold collect_results. apply collect_loop_past_end; lia.
  - intros indices' Hlen. unfold collect_results. now rewrite Hlen.
Qed.

(** X12.  Every candidate that leaves the decoder, and every detection of
    the assembled result, has a confidence that is not below the
    confidence threshold of the detector. *)
Theorem delivered_confidence_bound (d : OpenVINODetector)
    (output_buffer : list (list Q)) (M : Matrix3f)
    (objs_result : list ArmorObject) (obj : ArmorObject) :
  postprocess d output_buffer M = Some objs_result ->
  In obj objs_result ->
  (conf_threshold_ d <= prob obj)%Q /\
  In obj (output_objs (generate_proposals no_proposals output_buffer M
                                          (conf_threshold_ d))).
Proof.
  intros Hpost Hin.
  split; [exact (postprocess_confident d output_buffer M objs_result obj Hpost Hin)|].
  rewrite postprocess_firstn in Hpost. injection Hpost as <-.
  match type of Hin with
  | In _ (firstn ?n ?l) => rewrite <- (firstn_skipn n l)
  end.
  apply in_or_app. now left.
Qed.

(** X13.  With a positive maximum, the assembled result never has more
    detections than the maximum. *)
Theorem delivered_count_capped (d : OpenVINODetector)
    (output_buffer : list (list Q)) (M : Matrix3f)
    (objs_result : list ArmorObject) :
  0 < top_k_ d ->
  postprocess d output_buffer M = Some objs_result ->
  Z.of_nat (length objs_result) <= top_k_ d.
Proof.
  intros Hk. rewrite postprocess_firstn. intros [= <-].
  rewrite length_firstn.
  match goal with
  | |- context [length (NMSBoxes ?b ?s ?t ?n ?k)] =>
    pose proof (suppress_length b n (Z.to_nat k) (nms_candidates s t)) as Hlen;
    fold (NMSBoxes b s t n k) in Hlen
  end.
  lia.
Qed.

(** ** push_input: effects *)

(** X14.  For every detector state and every frame, the work behind
    [push_input] runs the model at most once and calls the callback at most
    once, never without having run the model; the future yields [true]
    exactly when the callback was called, and a call is made only to a
    registered callback. *)
Theorem push_input_effects_bounded (resize : Mat -> Z -> Z -> Mat)
    (d : OpenVINODetector) (rgb_img : Mat) (timestamp_nanosec : Z) :
  let run := push_input resize d rgb_img timestamp_nanosec in
  (model_calls run <= 1)%nat /\
  (callback_calls run <= model_calls run)%nat /\
  (resolved run = Some true <-> callback_calls run = 1%nat) /\
  (callback_calls run = 1%nat -> infer_callback_ d <> None).
Proof.
  intros run. subst run. unfold push_input.
  destruct (empty rgb_img).
  - cbn. repeat split; try lia; try discriminate.
  - destruct (letterbox resize rgb_img (INPUT_W, INPUT_H)) as [resized_img M].
    destruct (compiled_model_ d) as [model|] eqn:Hmodel.
    + destruct (process_callback_run resize d model resized_img M
                  timestamp_nanosec rgb_img Hmodel) as [objs [_ ->]].
      destruct (infer_callback_ d); cbn;
        repeat split; try lia; try discriminate; try reflexivity.
    + unfold process_callback. rewrite Hmodel. cbn.
      repeat split; try lia; try discriminate.
Qed.

(** ** letterbox: the borders in IEEE arithmetic *)

(** X17.  Computed as the source does, with [half] in binary32 and
    [half - 0.1], [half + 0.1] in binary64, the two borders of every
    padding from 0 to 416 are its floor half and its ceiling half: they add
    up to the padding and the leading one is not the larger. *)
Theorem ieee_borders_network_input (pad : Z) :
  0 <= pad <= 416 ->
  IEEE.leading pad = pad / 2 /\
  IEEE.trailing pad = pad - pad / 2 /\
  IEEE.leading pad + IEEE.trailing pad = pad /\
  IEEE.leading pad <= IEEE.trailing pad.
Proof.
  intros Hpad.
  assert (forallb ieee_split_agrees (seq 0 417) = true) as Hall
    by (vm_compute; reflexivity).
  rewrite forallb_forall in Hall.
  specialize (Hall (Z.to_nat pad)).
  unfold ieee_split_agrees in Hall.
  rewrite Z2Nat.id in Hall by lia.
  assert (In (Z.to_nat pad) (seq 0 417)) as Hin by (apply in_seq; lia).
  apply Hall in Hin. apply andb_true_iff in Hin.
  destruct Hin as [Hl Ht]. apply Z.eqb_eq in Hl, Ht.
  rewrite Hl, Ht. repeat split; div_lia.
Qed.

(** ** The further properties at sample inputs *)

Lemma sample_resize_to_size : resizes_to_size sample_resize.
Proof.
  intros m w h Hw Hh. unfold sample_resize, well_formed. cbn [rows cols data].
  repeat split; try assumption.
  - apply repeat_length.
  - apply Forall_repeat. apply repeat_length.
Qed.

Lemma letterbox_extents_within_target_witness :
  let img := uniform_image 1280 1024 (mkVec3b 0 0 0) in
  let new_shape := (INPUT_W, INPUT_H) in
  (0 < rows img /\ 0 < cols img /\ 0 < fst new_shape /\ 0 < snd new_shape) /\
  ((0 <= resize_w img new_shape <= fst new_shape /\
    0 <= resize_h img new_shape <= snd new_shape) /\
   (0 <= pad_w img new_shape /\ 0 <= pad_h img new_shape) /\
   (0 <= top img new_shape /\ 0 <= bottom img new_shape /\
    0 <= left img new_shape /\ 0 <= right img new_shape)).
Proof.
  intros img new_shape.
  assert (0 < rows img) as H1 by reflexivity.
  assert (0 < cols img) as H2 by reflexivity.
  assert (0 < fst new_shape) as H3 by reflexivity.
  assert (0 < snd new_shape) as H4 by reflexivity.
  exact (conj (conj H1 (conj H2 (conj H3 H4)))
              (letterbox_extents_within_target img new_shape H1 H2 H3 H4)).
Defined.

Lemma letterbox_fills_one_axis_witness :
  let img := uniform_image 1280 1024 (mkVec3b 0 0 0) in
  let new_shape := (INPUT_W, INPUT_H) in
  (0 < rows img /\ 0 < cols img /\ 0 < fst new_shape /\ 0 < snd new_shape) /\
  ((resize_h img new_shape = snd new_shape /\
    top img new_shape = 0 /\ bottom img new_shape = 0) \/
   (resize_w img new_shape = fst new_shape /\
    left img new_shape = 0 /\ right img new_shape = 0)).
Proof.
  intros img new_shape.
  assert (0 < rows img) as H1 by reflexivity.
  assert (0 < cols img) as H2 by reflexivity.
  assert (0 < fst new_shape) as H3 by reflexivity.
  assert (0 < snd new_shape) as H4 by reflexivity.
  exact (conj (conj H1 (conj H2 (conj H3 H4)))
              (letterbox_fills_one_axis img new_shape H1 H2 H3 H4)).
Defined.

Lemma letterbox_image_shape_witness :
  let img := uniform_image 640 480 (mkVec3b 1 2 3) in
  let new_shape := (INPUT_W, INPUT_H) in
  let out := fst (letterbox sample_resize img new_shape) in
  (resizes_to_size sample_resize /\
   0 < rows img /\ 0 < cols img /\ 0 < fst new_shape /\ 0 < snd new_shape) /\
  (rows out = snd new_shape /\ cols out = fst new_shape /\ well_formed out).
Proof.
  intros img new_shape out.
  assert (0 < rows img) as H1 by reflexivity.
  assert (0 < cols img) as H2 by reflexivity.
  assert (0 < fst new_shape) as H3 by reflexivity.
  assert (0 < snd new_shape) as H4 by reflexivity.
  exact (conj (conj sample_resize_to_size (conj H1 (conj H2 (conj H3 H4))))
              (letterbox_image_shape sample_resize img new_shape
                 sample_resize_to_size H1 H2 H3 H4)).
Defined.

(** The first pixel of the resized 640 x 480 frame, found again below the
    top border of 52 rows. *)
Lemma letterbox_pixels_witness :
  let img := uniform_image 640 480 (mkVec3b 1 2 3) in
  let new_shape := (INPUT_W, INPUT_H) in
  let resized_img :=
    sample_resize img (resize_w img new_shape) (resize_h img new_shape) in
  let out := fst (letterbox sample_resize img new_shape) in
  pixel_at resized_img 0 0 = Some (mkVec3b 1 2 3) /\
  pixel_at out (Z.to_nat (top img new_shape) + 0)
               (Z.to_nat (left img new_shape) + 0) = Some (mkVec3b 1 2 3).
Proof.
  intros img new_shape resized_img out.
  assert (pixel_at resized_img 0 0 = Some (mkVec3b 1 2 3)) as H
    by (vm_compute; reflexivity).
  exact (conj H
              (proj1 (letterbox_pixels sample_resize img new_shape 0 0
                        (mkVec3b 1 2 3)) H)).
Defined.

Lemma decode_object_labels_in_range_witness :
  let row := raw_row 100 100 40 20 (9 # 10) 2 5 in
  (9 + NUM_COLORS + NUM_CLASSES <= length row)%nat /\
  ((color (decode_object identity_matrix row) < NUM_COLORS)%nat /\
   (number (decode_object identity_matrix row) < NUM_CLASSES)%nat).
Proof.
  intros row.
  assert (9 + NUM_COLORS + NUM_CLASSES <= length row)%nat as H
    by (vm_compute; lia).
  exact (conj H (decode_object_labels_in_range identity_matrix row H)).
Defined.

Lemma decode_object_labels_first_max_witness :
  let row := raw_row 100 100 40 20 (9 # 10) 2 5 in
  let c := color (decode_object identity_matrix row) in
  let n := number (decode_object identity_matrix row) in
  (9 + NUM_COLORS + NUM_CLASSES <= length row)%nat /\
  ((forall j, (j < NUM_COLORS)%nat ->
      (at_col row (9 + j) <= at_col row (9 + c))%Q) /\
   (forall j, (j < c)%nat -> (at_col row (9 + j) < at_col row (9 + c))%Q) /\
   (forall j, (j < NUM_CLASSES)%nat ->
      (at_col row (9 + NUM_COLORS + j)
       <= at_col row (9 + NUM_COLORS + n))%Q) /\
   (forall j, (j < n)%nat ->
      (at_col row (9 + NUM_COLORS + j)
       < at_col row (9 + NUM_COLORS + n))%Q)).
Proof.
  intros row c n.
  assert (9 + NUM_COLORS + NUM_CLASSES <= length row)%nat as H
    by (vm_compute; lia).
  exact (conj H (decode_object_labels_first_max identity_matrix row H)).
Defined.

Lemma collect_results_prefix_or_fault_witness :
  let a := decode_object identity_matrix (nth 0 disjoint_rows []) in
  let b := decode_object identity_matrix (nth 1 disjoint_rows []) in
  ((length [1%nat] <= length [a; b])%nat /\
   collect_results [a; b] [1%nat] = Some (firstn (length [1%nat]) [a; b])) /\
  ((length [a] < length [0%nat; 0%nat])%nat /\
   collect_results [a] [0%nat; 0%nat] = None).
Proof.
  intros a b.
  assert (length [1%nat] <= length [a; b])%nat as H1 by (cbn; lia).
  assert (length [a] < length [0%nat; 0%nat])%nat as H2 by (cbn; lia).
  exact (conj
           (conj H1 (proj1 (collect_results_prefix_or_fault [a; b] [1%nat]) H1))
           (conj H2 (proj1 (proj2 (collect_results_prefix_or_fault
                                     [a] [0%nat; 0%nat])) H2))).
Defined.

Lemma delivered_confidence_bound_witness :
  let d := sample_detector (1 # 4) 5 (1 # 2) disjoint_rows None in
  let obj := decode_object identity_matrix (nth 0 disjoint_rows []) in
  let objs_result :=
    map (decode_object identity_matrix) disjoint_rows in
  (postprocess d disjoint_rows identity_matrix = Some objs_result /\
   In obj objs_result) /\
  ((conf_threshold_ d <= prob obj)%Q /\
   In obj (output_objs (generate_proposals no_proposals disjoint_rows
                                           identity_matrix (conf_threshold_ d)))).
Proof.
  intros d obj objs_result.
  assert (postprocess d disjoint_rows identity_matrix = Some objs_result) as H1
    by (vm_compute; reflexivity).
  assert (In obj objs_result) as H2 by (left; reflexivity).
  exact (conj (conj H1 H2)
              (delivered_confidence_bound d disjoint_rows identity_matrix
                 objs_result obj H1 H2)).
Defined.

Lemma delivered_count_capped_witness :
  let d := sample_detector (1 # 4) 2 (1 # 2) disjoint_rows None in
  let objs_result :=
    map (decode_object identity_matrix) (firstn 2 disjoint_rows) in
  (0 < top_k_ d /\
   postprocess d disjoint_rows identity_matrix = Some objs_result) /\
  Z.of_nat (length objs_result) <= top_k_ d.
Proof.
  intros d objs_result.
  assert (0 < top_k_ d) as H1 by reflexivity.
  assert (postprocess d disjoint_rows identity_matrix = Some objs_result) as H2
    by (vm_compute; reflexivity).
  exact (conj (conj H1 H2)
              (delivered_count_capped d disjoint_rows identity_matrix
                 objs_result H1 H2)).
Defined.

Lemma ieee_borders_network_input_witness :
  0 <= 83 <= 416 /\
  (IEEE.leading 83 = 83 / 2 /\
   IEEE.trailing 83 = 83 - 83 / 2 /\
   IEEE.leading 83 + IEEE.trailing 83 = 83 /\
   IEEE.leading 83 <= IEEE.trailing 83).
Proof.
  assert (0 <= 83 <= 416) as H by lia.
  exact (conj H (ieee_borders_network_input 83 H)).
Defined.

(** ** letterbox and generate_proposals together *)

(** A network point that is the forward image of a source point [q] is
    sent by the matrix to within half a network pixel of [q]. *)
Lemma matrix_undoes_forward_map (img : Mat) (new_shape : Z * Z) (q p : Point2f) :
  0 < rows img -> 0 < cols img -> 0 < fst new_shape -> 0 < snd new_shape ->
  px p = px (forward_map img new_shape q) ->
  py p = py (forward_map img new_shape q) ->
  within_half_pixel img new_shape q
    (transform_point (transform_matrix img new_shape) p).
Proof.
  intros Hr Hc Hw Hh Hpx Hpy.
  pose proof (scale_pos img new_shape Hr Hc Hw Hh) as Hs.
  destruct (leading_border_offset (pad_w img new_shape)) as [Hx1 Hx2].
  destruct (leading_border_offset (pad_h img new_shape)) as [Hy1 Hy2].
  fold (half_w img new_shape) in Hx1, Hx2.
  fold (half_h img new_shape) in Hy1, Hy2.
  fold (left img new_shape) in Hx1, Hx2.
  fold (top img new_shape) in Hy1, Hy2.
  unfold within_half_pixel. cbn [transform_point transform_matrix px py
                                 m00 m01 m02 m10 m11 m12].
  rewrite Hpx, Hpy. cbn [forward_map px py].
  split; apply Qabs_Qle_condition.
  - assert (((1 / scale img new_shape
              * (px q * scale img new_shape + inject_Z (left img new_shape))
              + 0 * (py q * scale img new_shape + inject_Z (top img new_shape))
              + - half_w img new_shape / scale img new_shape * 1) - px q)
            * scale img new_shape
            == inject_Z (left img new_shape) - half_w img new_shape)%Q as ->
      by (field; lra).
    split; lra.
  - assert (((0 * (px q * scale img new_shape + inject_Z (left img new_shape))
              + 1 / scale img new_shape
                * (py q * scale img new_shape + inject_Z (top img new_shape))
              + - half_h img new_shape / scale img new_shape * 1) - py q)
            * scale img new_shape
            == inject_Z (top img new_shape) - half_h img new_shape)%Q as ->
      by (field; lra).
    split; lra.
Qed.

(** ** process_callback: the shape of the input tensor *)

Lemma plane_shape (f : Vec3b -> Q) (m : Mat) :
  well_formed m ->
  length (plane f m) = Z.to_nat (rows m) /\
  Forall (fun line => length line = Z.to_nat (cols m)) (plane f m).
Proof.
  intros [_ [_ [Hlen Hlines]]]. unfold plane. split.
  - now rewrite length_map.
  - apply Forall_map. eapply Forall_impl; [|exact Hlines].
    intros line Hline. cbn beta. now rewrite length_map.
Qed.

(** X19.  Whatever the size of the image handed to [process_callback], the
    blob built from it has the shape 1 x 3 x 416 x 416 that the input
    tensor is declared with, when [cv::resize] returns an image of the size
    it is asked for. *)
Theorem input_tensor_shape (resize : Mat -> Z -> Z -> Mat) (resized_img : Mat) :
  resizes_to_size resize ->
  well_formed resized_img ->
  has_shape (blobFromImage resize resized_img 1 (INPUT_W, INPUT_H)
                           (0, 0, 0)%Q true)
            1 3 (Z.to_nat INPUT_H) (Z.to_nat INPUT_W).
Proof.
  intros Hresize Hwf. unfold blobFromImage. cbn [fst snd].
  set (image' := if (cols resized_img =? INPUT_W) && (rows resized_img =? INPUT_H)
                 then resized_img
                 else resize resized_img INPUT_W INPUT_H).
  assert (well_formed image' /\ rows image' = INPUT_H /\ cols image' = INPUT_W)
    as [Hwf' [Hr Hc]].
  { subst image'.
    destruct ((cols resized_img =? INPUT_W) && (rows resized_img =? INPUT_H))
      eqn:E.
    - apply andb_true_iff in E. destruct E as [Ec Er].
      apply Z.eqb_eq in Ec, Er. split; [exact Hwf | split; assumption].
    - destruct (Hresize resized_img INPUT_W INPUT_H) as [Sr [Sc Swf]];
        try (unfold INPUT_W, INPUT_H; lia).
      split; [exact Swf | split; assumption]. }
  unfold has_shape. split; [reflexivity|].
  constructor; [|constructor]. split; [reflexivity|].
  repeat (constructor;
          [rewrite <- Hr, <- Hc; now apply plane_shape|]).
  constructor.
Qed.

Lemma input_tensor_shape_witness :
  let resized_img := uniform_image 4 2 (mkVec3b 10 20 30) in
  (resizes_to_size sample_resize /\ well_formed resized_img) /\
  has_shape (blobFromImage sample_resize resized_img 1 (INPUT_W, INPUT_H)
                           (0, 0, 0)%Q true)
            1 3 (Z.to_nat INPUT_H) (Z.to_nat INPUT_W).
Proof.
  intros resized_img.
  assert (well_formed resized_img) as H.
  { unfold resized_img, uniform_image, well_formed. cbn [rows cols data].
    split; [lia|]. split; [lia|]. split.
    - apply repeat_length.
    - apply Forall_repeat. apply repeat_length. }
  exact (conj (conj sample_resize_to_size H)
              (input_tensor_shape sample_resize resized_img
                 sample_resize_to_size H)).
Defined.

(** * Properties of the pipeline with its partial steps *)

(** ** The decoder and the stores *)

Lemma decode_row_checked_cases (conf_threshold : Q) (M : Matrix3f)
    (acc : Proposals) (row : list Q) :
  decode_row_checked conf_threshold M acc row
  = if passes conf_threshold row then Undefined else Done acc.
Proof.
  unfold decode_row_checked, passes.
  destruct (Qlt_bool (at_col row 8) conf_threshold); reflexivity.
Qed.

(** The checked decoder ends normally exactly when no row passes the
    cutoff, and then it has appended nothing; a row that passes takes it to
    the stores past the size of [obj.pts]. *)
Lemma generate_proposals_checked_cases (acc : Proposals)
    (output_buffer : list (list Q)) (M : Matrix3f) (conf_threshold : Q) :
  generate_proposals_checked acc output_buffer M conf_threshold
  = match filter (passes conf_threshold) output_buffer with
    | [] => Done acc
    | _ :: _ => Undefined
    end.
Proof.
  induction output_buffer as [|row rest IH]; [reflexivity|].
  cbn [generate_proposals_checked filter].
  rewrite decode_row_checked_cases.
  destruct (passes conf_threshold row); [reflexivity|]. exact IH.
Qed.

Lemma NMSBoxes_nil (score_threshold nms_threshold : Q) (top_k : Z) :
  NMSBoxes [] [] score_threshold nms_threshold top_k = [].
Proof.
  unfold NMSBoxes, nms_candidates. cbn.
  now destruct (Z.to_nat top_k).
Qed.

Lemma postprocess_checked_cases (d : OpenVINODetector)
    (output_buffer : list (list Q)) (M : Matrix3f) :
  postprocess_checked d output_buffer M
  = match filter (passes (conf_threshold_ d)) output_buffer with
    | [] => Done []
    | _ :: _ => Undefined
    end.
Proof.
  unfold postprocess_checked. rewrite generate_proposals_checked_cases.
  destruct (filter _ output_buffer); [|reflexivity].
  cbn [outcome_bind no_proposals rects scores output_objs].
  now rewrite NMSBoxes_nil.
Qed.

(** ** letterbox and its two OpenCV calls *)

Lemma ieee_borders_nonneg (pad : Z) :
  0 <= pad <= INPUT_W -> 0 <= IEEE.leading pad /\ 0 <= IEEE.trailing pad.
Proof.
  intros Hpad.
  destruct (ieee_padding_split pad Hpad) as [-> ->].
  destruct (padding_split pad) as [-> ->]. split; div_lia.
Qed.

(** For a non-empty frame whose resized extents are positive and within the
    network size, neither OpenCV call raises. *)
Lemma letterbox_checked_done (resize : Mat -> Z -> Z -> Mat) (img : Mat) :
  empty img = false ->
  0 < IEEE.resize_w img (INPUT_W, INPUT_H) <= INPUT_W ->
  0 < IEEE.resize_h img (INPUT_W, INPUT_H) <= INPUT_H ->
  letterbox_checked resize img (INPUT_W, INPUT_H)
  = Done (letterboxed resize img (INPUT_W, INPUT_H),
          transform_matrix img (INPUT_W, INPUT_H)).
Proof.
  intros Hne Hw Hh. unfold letterbox_checked, cv_resize.
  rewrite Hne.
  replace (IEEE.resize_w img (INPUT_W, INPUT_H) <=? 0) with false
    by (symmetry; apply Z.leb_gt; lia).
  replace (IEEE.resize_h img (INPUT_W, INPUT_H) <=? 0) with false
    by (symmetry; apply Z.leb_gt; lia).
  cbn [orb outcome_bind]. unfold cv_copyMakeBorder.
  destruct (ieee_borders_nonneg (IEEE.pad_h img (INPUT_W, INPUT_H)))
    as [Ht Hb]; [unfold IEEE.pad_h, INPUT_W, INPUT_H in *; cbn [snd]; lia|].
  destruct (ieee_borders_nonneg (IEEE.pad_w img (INPUT_W, INPUT_H)))
    as [Hl Hr]; [unfold IEEE.pad_w, INPUT_W, INPUT_H in *; cbn [fst]; lia|].
  fold (IEEE.top img (INPUT_W, INPUT_H)) in Ht.
  fold (IEEE.bottom img (INPUT_W, INPUT_H)) in Hb.
  fold (IEEE.left img (INPUT_W, INPUT_H)) in Hl.
  fold (IEEE.right img (INPUT_W, INPUT_H)) in Hr.
  replace (IEEE.top img (INPUT_W, INPUT_H) <? 0) with false
    by (symmetry; apply Z.ltb_ge; assumption).
  replace (IEEE.bottom img (INPUT_W, INPUT_H) <? 0) with false
    by (symmetry; apply Z.ltb_ge; assumption).
  replace (IEEE.left img (INPUT_W, INPUT_H) <? 0) with false
    by (symmetry; apply Z.ltb_ge; assumption).
  replace (IEEE.right img (INPUT_W, INPUT_H) <? 0) with false
    by (symmetry; apply Z.ltb_ge; assumption).
  reflexivity.
Qed.

(** ** The worker *)

Lemma process_callback_checked_cases (resize : Mat -> Z -> Z -> Mat)
    (d : OpenVINODetector) (model : CompiledModel) (resized_img : Mat)
    (M : Matrix3f) (timestamp_nanosec : Z) (src_img : Mat) :
  compiled_model_ d = Some model ->
  let blob :=
    blobFromImage resize resized_img 1 (INPUT_W, INPUT_H) (0, 0, 0)%Q true in
  process_callback_checked resize d resized_img M timestamp_nanosec src_img
  = match filter (passes (conf_threshold_ d)) (model blob) with
    | [] =>
      match infer_callback_ d with
      | Some callback =>
        ([Infer blob; Call callback [] timestamp_nanosec src_img], Done true)
      | None => ([Infer blob], Done false)
      end
    | _ :: _ => ([Infer blob], Undefined)
    end.
Proof.
  intros Hmodel blob. unfold process_callback_checked. fold blob.
  rewrite Hmodel, postprocess_checked_cases.
  destruct (filter _ (model blob)); reflexivity.
Qed.

Lemma push_input_checked_worker (resize : Mat -> Z -> Z -> Mat)
    (d : OpenVINODetector) (rgb_img : Mat) (timestamp_nanosec : Z) :
  empty rgb_img = false ->
  0 < IEEE.resize_w rgb_img (INPUT_W, INPUT_H) <= INPUT_W ->
  0 < IEEE.resize_h rgb_img (INPUT_W, INPUT_H) <= INPUT_H ->
  push_input_checked resize d rgb_img timestamp_nanosec
  = process_callback_checked resize d
      (letterboxed resize rgb_img (INPUT_W, INPUT_H))
      (transform_matrix rgb_img (INPUT_W, INPUT_H))
      timestamp_nanosec rgb_img.
Proof.
  intros Hne Hw Hh. unfold push_input_checked.
  now rewrite Hne, (letterbox_checked_done resize rgb_img Hne Hw Hh).
Qed.

(** C8.  For every non-empty frame whose resized extents are positive and
    within the network size, submitted to a detector that holds a compiled
    model: the model is run exactly once, on the tensor built from the
    letterboxed frame.  When no row of its output reaches the confidence
    threshold, decoding, filtering and assembly end with an empty list:
    with no callback registered nothing is called and the future resolves
    to [false]; with a callback registered it is called exactly once, with
    the empty list, the timestamp and the original frame, and the future
    resolves to [true].  When some row reaches the threshold, the decoder
    arrives at the stores past the size of [obj.pts], after the model has
    run and before any call: what follows is undefined. *)
Theorem push_input_checked_delivery (resize : Mat -> Z -> Z -> Mat)
    (d : OpenVINODetector) (model : CompiledModel) (rgb_img : Mat)
    (timestamp_nanosec : Z) :
  empty rgb_img = false ->
  0 < IEEE.resize_w rgb_img (INPUT_W, INPUT_H) <= INPUT_W ->
  0 < IEEE.resize_h rgb_img (INPUT_W, INPUT_H) <= INPUT_H ->
  compiled_model_ d = Some model ->
  let resized_img := letterboxed resize rgb_img (INPUT_W, INPUT_H) in
  let blob :=
    blobFromImage resize resized_img 1 (INPUT_W, INPUT_H) (0, 0, 0)%Q true in
  let kept := filter (passes (conf_threshold_ d)) (model blob) in
  let run := push_input_checked resize d rgb_img timestamp_nanosec in
  run_model_calls run = 1%nat /\
  (kept = [] -> infer_callback_ d = None ->
     run = ([Infer blob], Done false) /\ run_callback_calls run = 0%nat) /\
  (forall callback, kept = [] -> infer_callback_ d = Some callback ->
     run = ([Infer blob; Call callback [] timestamp_nanosec rgb_img],
            Done true) /\
     run_callback_calls run = 1%nat) /\
  (kept <> [] -> run = ([Infer blob], Undefined)).
Proof.
  intros Hne Hw Hh Hmodel resized_img blob kept run.
  assert (run
          = match kept with
            | [] =>
              match infer_callback_ d with
              | Some callback =>
                ([Infer blob; Call callback [] timestamp_nanosec rgb_img],
                 Done true)
              | None => ([Infer blob], Done false)
              end
            | _ :: _ => ([Infer blob], Undefined)
            end) as Hrun.
  { subst run. rewrite (push_input_checked_worker resize d rgb_img _ Hne Hw Hh).
    exact (process_callback_checked_cases resize d model resized_img _ _ _
             Hmodel). }
  rewrite Hrun. clear Hrun.
  split; [|split; [|split]].
  - destruct kept; [destruct (infer_callback_ d)|]; reflexivity.
  - intros -> ->. split; reflexivity.
  - intros callback -> ->. split; reflexivity.
  - intros Hkept. destruct kept; [congruence | reflexivity].
Qed.

(** C8, the claim as it is written, at a frame of 1000 x 1 pixels: the
    frame is not empty, a model and a callback are there, and the scaled
    height rounds to 0, so [cv::resize] raises inside [push_input]: the
    model is not run, the callback is not called and no future resolves to
    [true]. *)
Lemma push_input_raises_on_thin_frame :
  let d := sample_detector (1 # 4) 5 (1 # 2) quiet_rows (Some 7%nat) in
  let run := push_input_checked sample_resize d thin_frame 42 in
  empty thin_frame = false /\
  IEEE.resize_h thin_frame (INPUT_W, INPUT_H) = 0 /\
  run = ([], Raised) /\
  run_model_calls run = 0%nat /\
  run_callback_calls run = 0%nat /\
  run_outcome run <> Done true.
Proof.
  cbv zeta.
  assert (push_input_checked sample_resize
            (sample_detector (1 # 4) 5 (1 # 2) quiet_rows (Some 7%nat))
            thin_frame 42 = ([], Raised)) as -> by (vm_compute; reflexivity).
  repeat split; try (vm_compute; reflexivity). discriminate.
Qed.

(** A 4 x 2 frame, a model whose rows stay below the threshold, and the
    callback numbered 7. *)
Lemma push_input_checked_delivery_witness :
  let d := sample_detector (1 # 4) 5 (1 # 2) quiet_rows (Some 7%nat) in
  let model := sample_model quiet_rows in
  let rgb_img := uniform_image 4 2 (mkVec3b 1 2 3) in
  let resized_img := letterboxed sample_resize rgb_img (INPUT_W, INPUT_H) in
  let blob :=
    blobFromImage sample_resize resized_img 1 (INPUT_W, INPUT_H)
                  (0, 0, 0)%Q true in
  let kept := filter (passes (conf_threshold_ d)) (model blob) in
  let run := push_input_checked sample_resize d rgb_img 42 in
  (empty rgb_img = false /\
   0 < IEEE.resize_w rgb_img (INPUT_W, INPUT_H) <= INPUT_W /\
   0 < IEEE.resize_h rgb_img (INPUT_W, INPUT_H) <= INPUT_H /\
   compiled_model_ d = Some model) /\
  (run_model_calls run = 1%nat /\
   (kept = [] -> infer_callback_ d = None ->
      run = ([Infer blob], Done false) /\ run_callback_calls run = 0%nat) /\
   (forall callback, kept = [] -> infer_callback_ d = Some callback ->
      run = ([Infer blob; Call callback [] 42 rgb_img], Done true) /\
      run_callback_calls run = 1%nat) /\
   (kept <> [] -> run = ([Infer blob], Undefined))).
Proof.
  intros d model rgb_img resized_img blob kept run.
  assert (empty rgb_img = false) as H1 by reflexivity.
  assert (0 < IEEE.resize_w rgb_img (INPUT_W, INPUT_H) <= INPUT_W) as H2
    by (vm_compute; split; [reflexivity | discriminate]).
  assert (0 < IEEE.resize_h rgb_img (INPUT_W, INPUT_H) <= INPUT_H) as H3
    by (vm_compute; split; [reflexivity | discriminate]).
  assert (compiled_model_ d = Some model) as H4 by reflexivity.
  exact (conj (conj H1 (conj H2 (conj H3 H4)))
              (push_input_checked_delivery sample_resize d model rgb_img 42
                 H1 H2 H3 H4)).
Defined.

(** X16.  For a non-empty frame whose resized extents are positive and
    within the network size: when no row of the output tensor reaches the
    confidence threshold, a registered callback is still called, exactly
    once, with an empty list of detections, and the future yields
    [true]. *)
Theorem push_input_no_candidates (resize : Mat -> Z -> Z -> Mat)
    (d : OpenVINODetector) (model : CompiledModel) (callback : DetectorCallback)
    (rgb_img : Mat) (timestamp_nanosec : Z) :
  empty rgb_img = false ->
  0 < IEEE.resize_w rgb_img (INPUT_W, INPUT_H) <= INPUT_W ->
  0 < IEEE.resize_h rgb_img (INPUT_W, INPUT_H) <= INPUT_H ->
  compiled_model_ d = Some model ->
  infer_callback_ d = Some callback ->
  let resized_img := letterboxed resize rgb_img (INPUT_W, INPUT_H) in
  let blob :=
    blobFromImage resize resized_img 1 (INPUT_W, INPUT_H) (0, 0, 0)%Q true in
  Forall (fun row => (at_col row 8 < conf_threshold_ d)%Q) (model blob) ->
  push_input_checked resize d rgb_img timestamp_nanosec
  = ([Infer blob; Call callback [] timestamp_nanosec rgb_img], Done true).
Proof.
  intros Hne Hw Hh Hmodel Hcb resized_img blob Hall.
  rewrite (push_input_checked_worker resize d rgb_img _ Hne Hw Hh).
  rewrite (process_callback_checked_cases resize d model _ _ _ _ Hmodel).
  fold resized_img. fold blob.
  assert (filter (passes (conf_threshold_ d)) (model blob) = []) as ->.
  { induction Hall as [|row buf Hrow _ IH]; [reflexivity|]. cbn.
    unfold passes at 1. apply Qlt_bool_iff in Hrow. now rewrite Hrow. }
  now rewrite Hcb.
Qed.

Lemma push_input_no_candidates_witness :
  let d := sample_detector (1 # 4) 5 (1 # 2) quiet_rows (Some 7%nat) in
  let model := sample_model quiet_rows in
  let rgb_img := uniform_image 4 2 (mkVec3b 1 2 3) in
  let resized_img := letterboxed sample_resize rgb_img (INPUT_W, INPUT_H) in
  let blob :=
    blobFromImage sample_resize resized_img 1 (INPUT_W, INPUT_H)
                  (0, 0, 0)%Q true in
  (empty rgb_img = false /\
   0 < IEEE.resize_w rgb_img (INPUT_W, INPUT_H) <= INPUT_W /\
   0 < IEEE.resize_h rgb_img (INPUT_W, INPUT_H) <= INPUT_H /\
   compiled_model_ d = Some model /\
   infer_callback_ d = Some 7%nat /\
   Forall (fun row => (at_col row 8 < conf_threshold_ d)%Q) (model blob)) /\
  push_input_checked sample_resize d rgb_img 42
  = ([Infer blob; Call 7%nat [] 42 rgb_img], Done true).
Proof.
  intros d model rgb_img resized_img blob.
  assert (empty rgb_img = false) as H1 by reflexivity.
  assert (0 < IEEE.resize_w rgb_img (INPUT_W, INPUT_H) <= INPUT_W) as H2
    by (vm_compute; split; [reflexivity | discriminate]).
  assert (0 < IEEE.resize_h rgb_img (INPUT_W, INPUT_H) <= INPUT_H) as H3
    by (vm_compute; split; [reflexivity | discriminate]).
  assert (compiled_model_ d = Some model) as H4 by reflexivity.
  assert (infer_callback_ d = Some 7%nat) as H5 by reflexivity.
  assert (Forall (fun row => (at_col row 8 < conf_threshold_ d)%Q) (model blob))
    as H6.
  { change (model blob) with quiet_rows. unfold quiet_rows.
    apply Forall_cons; [reflexivity|].
    apply Forall_cons; [reflexivity|]. apply Forall_nil. }
  exact (conj (conj H1 (conj H2 (conj H3 (conj H4 (conj H5 H6)))))
              (push_input_no_candidates sample_resize d model 7%nat rgb_img 42
                 H1 H2 H3 H4 H5 H6)).
Defined.


(** ** The assembly after the filter *)

(** X11.  Whatever the candidates are, with one score per candidate, the
    loop of lines 244-246 run on the indices the filter returns never reads
    past the end of the candidates, and what it assembles is a prefix of
    them. *)
Theorem assembly_within_candidates (objs_tmp : list ArmorObject)
    (confidences : list Q) (bboxes : list Rect)
    (score_threshold nms_threshold : Q) (top_k : Z) :
  length confidences = length objs_tmp ->
  exists n : nat,
    (n <= length objs_tmp)%nat /\
    collect_results objs_tmp
      (NMSBoxes bboxes confidences score_threshold nms_threshold top_k)
    = Some (firstn n objs_tmp).
Proof.
  intros Hlen.
  pose proof (NMSBoxes_length bboxes confidences score_threshold
                nms_threshold top_k) as Hn.
  rewrite Hlen in Hn.
  eexists. split; [exact Hn|].
  now apply collect_results_firstn.
Qed.

Lemma assembly_within_candidates_witness :
  let parsed :=
    generate_proposals no_proposals disjoint_rows identity_matrix (1 # 4) in
  length (scores parsed) = length (output_objs parsed) /\
  exists n : nat,
    (n <= length (output_objs parsed))%nat /\
    collect_results (output_objs parsed)
      (NMSBoxes (rects parsed) (scores parsed) (1 # 4) 1 2)
    = Some (firstn n (output_objs parsed)).
Proof.
  intros parsed.
  assert (length (scores parsed) = length (output_objs parsed)) as H
    by reflexivity.
  exact (conj H (assembly_within_candidates (output_objs parsed)
                   (scores parsed) (rects parsed) (1 # 4) 1 2 H)).
Defined.

(** ** letterbox: from the source image and back *)

Lemma half_le_one (x : Q) : (Qabs x <= 1 # 2)%Q -> (Qabs x <= 1)%Q.
Proof. intros H. eapply Qle_trans; [exact H | discriminate]. Qed.

(** X5.  A point on the source image, sent through the forward
    scale-and-pad map and back through the matrix, returns to itself
    within one network pixel on each axis (the difference times [scale] is
    at most 1). *)
Theorem source_roundtrip (img : Mat) (new_shape : Z * Z) (q : Point2f) :
  0 < rows img -> 0 < cols img -> 0 < fst new_shape -> 0 < snd new_shape ->
  on_image img q ->
  within_one_pixel img new_shape q
    (transform_point (transform_matrix img new_shape)
                     (forward_map img new_shape q)).
Proof.
  intros Hr Hc Hw Hh _.
  destruct (matrix_undoes_forward_map img new_shape q
              (forward_map img new_shape q) Hr Hc Hw Hh eq_refl eq_refl)
    as [Hx Hy].
  split; apply half_le_one; assumption.
Qed.

Lemma source_roundtrip_witness :
  let img := uniform_image 1280 1024 (mkVec3b 0 0 0) in
  let new_shape := (INPUT_W, INPUT_H) in
  let q := mkPoint2f 640 512 in
  (0 < rows img /\ 0 < cols img /\ 0 < fst new_shape /\ 0 < snd new_shape /\
   on_image img q) /\
  within_one_pixel img new_shape q
    (transform_point (transform_matrix img new_shape)
                     (forward_map img new_shape q)).
Proof.
  intros img new_shape q.
  assert (0 < rows img) as H1 by reflexivity.
  assert (0 < cols img) as H2 by reflexivity.
  assert (0 < fst new_shape) as H3 by reflexivity.
  assert (0 < snd new_shape) as H4 by reflexivity.
  assert (on_image img q) as H5
    by (unfold on_image; split; [|split; [|split]]; discriminate).
  exact (conj (conj H1 (conj H2 (conj H3 (conj H4 H5))))
              (source_roundtrip img new_shape q H1 H2 H3 H4 H5)).
Defined.

(** X18.  The matrix product of line 119 yields source coordinates: for a
    row whose four point pairs are the positions, in the letterboxed image,
    of four points on the source image, and the matrix that [letterbox]
    produced for that image, the four points of [apex_dst] are within one
    network pixel of the four source points, in order. *)
Theorem apex_dst_source_coordinates (resize : Mat -> Z -> Z -> Mat)
    (img : Mat) (new_shape : Z * Z) (q1 q2 q3 q4 : Point2f) (rest : list Q) :
  0 < rows img -> 0 < cols img -> 0 < fst new_shape -> 0 < snd new_shape ->
  on_image img q1 -> on_image img q2 -> on_image img q3 -> on_image img q4 ->
  let f := forward_map img new_shape in
  let row :=
    [ px (f q1); py (f q1); px (f q2); py (f q2);
      px (f q3); py (f q3); px (f q4); py (f q4) ] ++ rest in
  let M := snd (letterbox resize img new_shape) in
  exists p1 p2 p3 p4,
    apex_dst M row = [p1; p2; p3; p4] /\
    within_one_pixel img new_shape q1 p1 /\
    within_one_pixel img new_shape q2 p2 /\
    within_one_pixel img new_shape q3 p3 /\
    within_one_pixel img new_shape q4 p4.
Proof.
  intros Hr Hc Hw Hh _ _ _ _ f row M.
  exists (transform_point M (mkPoint2f (px (f q1)) (py (f q1)))),
         (transform_point M (mkPoint2f (px (f q2)) (py (f q2)))),
         (transform_point M (mkPoint2f (px (f q3)) (py (f q3)))),
         (transform_point M (mkPoint2f (px (f q4)) (py (f q4)))).
  split; [reflexivity|].
  subst M. cbn [letterbox snd].
  split; [|split; [|split]];
    (match goal with
     | |- within_one_pixel _ _ ?q (transform_point _ ?p) =>
       destruct (matrix_undoes_forward_map img new_shape q p Hr Hc Hw Hh
                   eq_refl eq_refl) as [Hx Hy]
     end; split; apply half_le_one; assumption).
Qed.

Lemma apex_dst_source_coordinates_witness :
  let img := uniform_image 1280 1024 (mkVec3b 0 0 0) in
  let new_shape := (INPUT_W, INPUT_H) in
  let q1 := mkPoint2f 600 500 in
  let q2 := mkPoint2f 600 540 in
  let q3 := mkPoint2f 700 540 in
  let q4 := mkPoint2f 700 500 in
  let f := forward_map img new_shape in
  let row :=
    [ px (f q1); py (f q1); px (f q2); py (f q2);
      px (f q3); py (f q3); px (f q4); py (f q4) ]
    ++ ((9 # 10) :: one_hot NUM_COLORS 1 ++ one_hot NUM_CLASSES 3) in
  let M := snd (letterbox sample_resize img new_shape) in
  (0 < rows img /\ 0 < cols img /\ 0 < fst new_shape /\ 0 < snd new_shape /\
   on_image img q1 /\ on_image img q2 /\ on_image img q3 /\ on_image img q4) /\
  exists p1 p2 p3 p4,
    apex_dst M row = [p1; p2; p3; p4] /\
    within_one_pixel img new_shape q1 p1 /\
    within_one_pixel img new_shape q2 p2 /\
    within_one_pixel img new_shape q3 p3 /\
    within_one_pixel img new_shape q4 p4.
Proof.
  intros img new_shape q1 q2 q3 q4 f row M.
  assert (0 < rows img) as H1 by reflexivity.
  assert (0 < cols img) as H2 by reflexivity.
  assert (0 < fst new_shape) as H3 by reflexivity.
  assert (0 < snd new_shape) as H4 by reflexivity.
  assert (forall q, In q [q1; q2; q3; q4] -> on_image img q) as Hon.
  { intros q [<- | [<- | [<- | [<- | []]]]];
      (unfold on_image; split; [|split; [|split]]; discriminate). }
  assert (on_image img q1) as O1 by (apply Hon; cbn; tauto).
  assert (on_image img q2) as O2 by (apply Hon; cbn; tauto).
  assert (on_image img q3) as O3 by (apply Hon; cbn; tauto).
  assert (on_image img q4) as O4 by (apply Hon; cbn; tauto).
  exact (conj (conj H1 (conj H2 (conj H3 (conj H4
                 (conj O1 (conj O2 (conj O3 O4)))))))
              (apex_dst_source_coordinates sample_resize img new_shape
                 q1 q2 q3 q4 _ H1 H2 H3 H4 O1 O2 O3 O4)).
Defined.
